(** * node-circuit-breaker: the decorator layer over the breaker engine

    A shallow embedding of [src/circuit-breaker.decorator.ts]: the module-level
    [events] registry, the [onEvent] method decorator that fills it, and the
    [CircuitBreaker] method decorator that builds the breaker options, creates
    one breaker per decorated method, attaches the registered listeners and
    the fallback, and replaces the method by a wrapper around [breaker.fire].

    Conventions of the embedding:
    - a JS object used as a bag of options is a [gmap string value];
    - a JS [Map] whose iteration order is observed (the innermost map of the
      registry, iterated by [for ... of]) is an insertion-ordered association
      list; the two outer maps are only looked up, they are [gmap]s;
    - JS numbers are integers ([Z]): the decorator only copies them;
    - a user function is a [VFunction] tag; what it does when called is a
      variable of the sections about calls;
    - a property key is a string (symbol keys are not modelled). *)

From Stdlib Require Import ZArith.
From stdpp Require Import gmap strings list fin_maps.

Local Open Scope Z_scope.
Set Warnings "-register-all,-clear-no-such-hyp".

(* ===================================================================== *)
(** ** JavaScript values                                                  *)
(* ===================================================================== *)

Module Js.

Inductive value : Type :=
  | VUndefined
  | VNull
  | VBool (b : bool)
  | VNumber (n : Z)
  | VString (s : string)
  | VFunction (f : nat)
  | VError (name : string)
  | VArray (xs : list value)
  | VObject (fields : list (string * value)).

(** [typeof v === "function"] *)
Definition is_function (v : value) : bool :=
  match v with VFunction _ => true | _ => false end.

(** [a ?? b]: [b] replaces [a] only when [a] is [undefined] or [null]. *)
Definition nullish (v : value) : bool :=
  match v with VUndefined | VNull => true | _ => false end.

Definition coalesce (a b : value) : value := if nullish a then b else a.

(** Truthiness of a string-or-undefined, as in [if (fallbackMethod)]. *)
Definition truthy_name (o : option string) : bool :=
  match o with
  | Some s => negb (bool_decide (s = ""))
  | None => false
  end.

(** [obj?.key] on an optional options object: [undefined] when the object
  or the key is absent. *)
Definition get (obj : option (gmap string value)) (key : string) : value :=
  match obj with
  | Some o => default VUndefined (o !! key)
  | None => VUndefined
  end.

End Js.
Import Js.

(* ===================================================================== *)
(** ** An insertion-ordered [Map<string, V>]                              *)
(* ===================================================================== *)

Module JsMap.

Section Ordered.
Context {V : Type}.

(** [m.get(k)] *)
Fixpoint get (k : string) (m : list (string * V)) : option V :=
  match m with
    | [] => None
    | (k', v) :: rest => if decide (k = k') then Some v else get k rest
  end.

(** [m.set(k, v)]: an existing key keeps its position, a new key goes
    last. *)
Fixpoint set (k : string) (v : V) (m : list (string * V)) : list (string * V) :=
  match m with
    | [] => [(k, v)]
    | (k', v') :: rest =>
      if decide (k = k') then (k, v) :: rest else (k', v') :: set k v rest
  end.

Definition keys (m : list (string * V)) : list string := m.*1.

End Ordered.

End JsMap.

(* ===================================================================== *)
(** ** The registry filled by [onEvent]                                   *)
(* ===================================================================== *)

(** The decorated class as the decorators see it: [target] is the prototype,
    of which the code reads [target.constructor.name] and [target[key]]. *)
Record Target : Type := {
  constructor_name : string;
  properties : gmap string value
}.

(** [target[key]] *)
Definition target_get (target : Target) (key : string) : value :=
  default VUndefined (properties target !! key).

(** [const events = new Map<string, Map<string, Map<string, string>>>()]:
    class name, then circuit group, then event name to method name. *)
Abbreviation Events := (gmap string (gmap string (list (string * string)))).

(** The fourteen names of [Types.EventType]. *)
Definition EventType : list string :=
  ["halfOpen"; "close"; "open"; "shutdown"; "fire"; "cacheHit"; "cacheMiss";
   "reject"; "timeout"; "success"; "semaphoreLocked"; "healthCheckFailed";
   "fallback"; "failure"].

Record OnEventInput : Type := {
  eventName : string;
  oe_circuitGroup : option string
}.

(** [circuitGroup = "default"] in the parameter list, and
    [circuitGroup ?? "default"] at each use. *)
Definition onEvent_group (input : OnEventInput) : string :=
  default "default" (oe_circuitGroup input).

(** [events.get(className)] then [.get(group)], an absent map read as
    empty. *)
Definition circuit_events (events : Events) (className group : string)
  : list (string * string) :=
  default [] (default ∅ (events !! className) !! group).

(** [onEvent({ eventName, circuitGroup })(target, propertyKey)]: creates the
    two outer entries when they are missing and sets
    [circuitEvents[eventName] = propertyKey.toString()]. *)
Definition onEvent (input : OnEventInput) (target : Target)
    (propertyKey : string) (events : Events) : Events :=
  let className := constructor_name target in
  let classEvents := default ∅ (events !! className) in
  let circuitEvents := default [] (classEvents !! onEvent_group input) in
  <[className :=
      <[onEvent_group input :=
          JsMap.set (eventName input) propertyKey circuitEvents]> classEvents]>
    events.

(** One application of the [onEvent] decorator, and a class-definition-time
    sequence of them applied to the empty registry. *)
Record Registration : Type := {
  reg_input : OnEventInput;
  reg_target : Target;
  reg_key : string
}.

Definition register (events : Events) (r : Registration) : Events :=
  onEvent (reg_input r) (reg_target r) (reg_key r) events.

Definition registry_of (regs : list Registration) : Events :=
  foldl register ∅ regs.

(** The circuit identity a registration is filed under. *)
Definition reg_class (r : Registration) : string :=
  constructor_name (reg_target r).
Definition reg_group (r : Registration) : string :=
  onEvent_group (reg_input r).

(* ===================================================================== *)
(** ** Options built by [CircuitBreaker]                                  *)
(* ===================================================================== *)

Definition MAX_EXECUTION_TIME_MS : Z := 1000.
Definition ERROR_THRESHOLD_PERCENTAGE : Z := 20.
Definition CIRCUIT_RESET_TIMEOUT_MS : Z := 5000.
Definition MIN_REQUEST_COUNT : Z := 5.

Record CircuitBreakerInput : Type := {
  options : option (gmap string value);
  circuitGroup : option string
}.

(** The default of the [params] parameter:
    [{ options: {}, circuitGroup: 'default' }]. *)
Definition default_params : CircuitBreakerInput :=
  {| options := Some ∅; circuitGroup := Some "default" |}.

(** [params?.circuitGroup ?? 'default'] *)
Definition params_group (params : CircuitBreakerInput) : string :=
  default "default" (circuitGroup params).

(** The object literal [opt]: the spread of [params?.options ?? {}], then the
    five keys written after it, which win over the spread. *)
Definition make_opt (params : CircuitBreakerInput) : gmap string value :=
  let o := options params in
  <["group" := VString (params_group params)]>
  (<["volumeThreshold" :=
       coalesce (Js.get o "volumeThreshold") (VNumber MIN_REQUEST_COUNT)]>
  (<["resetTimeout" :=
       coalesce (Js.get o "resetTimeout") (VNumber CIRCUIT_RESET_TIMEOUT_MS)]>
  (<["errorThresholdPercentage" :=
       coalesce (Js.get o "errorThresholdPercentage")
                (VNumber ERROR_THRESHOLD_PERCENTAGE)]>
  (<["timeout" :=
       coalesce (Js.get o "timeout") (VNumber MAX_EXECUTION_TIME_MS)]>
  (default ∅ o))))).

(** The four options with a default, as the code pairs them. *)
Definition defaulted_options : list (string * Z) :=
  [("timeout", MAX_EXECUTION_TIME_MS);
   ("errorThresholdPercentage", ERROR_THRESHOLD_PERCENTAGE);
   ("resetTimeout", CIRCUIT_RESET_TIMEOUT_MS);
   ("volumeThreshold", MIN_REQUEST_COUNT)].

(* ===================================================================== *)
(** ** The breaker engine                                                 *)
(* ===================================================================== *)

(** Modelled from the spec: the breaker runtime. The decorator imports it
    from the [opossum] package ([new OpossumCircuitBreaker], [breaker.on],
    [breaker.fallback], [breaker.fire]); that package is a dependency, its
    code is not in this repository. The definitions of this module follow sections 3, 4
    and 7 of the specification: state machine, statistics window, gate,
    cache, and fallback routing. Time is a logical clock in milliseconds,
    passed in by the caller. The statistics window is kept as the list of
    time-stamped outcomes, of which a snapshot reads the trailing window
    (the bucket ring of the specification is a coarser store of the same
    counts). Admission and settlement are two steps, so that calls in
    flight are part of the state. *)
Module Engine.

(** What a user function does when called: it settles after some latency
    with a value or a raised error, or it never settles. *)
Inductive Completion : Type :=
  | Returned (v : value)
  | Raised (e : value).

Inductive Behaviour : Type :=
  | Settles (latencyMs : Z) (c : Completion)
  | Never.

(** Section 7: the errors raised by the gate itself. *)
Definition TimeoutError : value := VError "TimeoutError".
Definition CircuitOpenError : value := VError "CircuitOpenError".
Definition CapacityExceededError : value := VError "CapacityExceededError".

(** Modelled from the spec: section 3, Configuration, of the engine that is
    not among the sources. [timeoutMs = None] is a disabled timeout,
    [capacity = None] an unbounded one, [cacheTTL = 0] no expiry;
    [counts e] is the error classifier. *)
Record Config : Type := {
  timeoutMs : option Z;
  errorThreshold : Z;
  resetTimeoutMs : Z;
  minimumVolume : Z;
  windowMs : Z;
  capacity : option nat;
  cacheEnabled : bool;
  cacheTTL : Z;
  counts : value → bool
}.

(** Modelled from the spec: section 3, Outcome and State, of the engine that
    is not among the sources. A failure carries the verdict of the error
    classifier. In [HALF_OPEN] the flag tells whether the single trial slot
    is taken. *)
Inductive Outcome : Type :=
  | Success
  | Failure (counted : bool)
  | Timeout
  | RejectedOpen
  | RejectedCapacity
  | CacheHit.

Inductive State : Type :=
  | CLOSED
  | OPEN (openedAt : Z)
  | HALF_OPEN (trialInFlight : bool).

(** Modelled from the spec: section 3, the state one Circuit owns in the
    engine that is not among the sources: state, statistics, calls in
    flight, cached result; with them the events emitted and the calls of
    the operation so far. *)
Record Circuit : Type := {
  state : State;
  samples : list (Z * Outcome);
  inFlight : nat;
  cached : option (value * Z);
  emitted : list string;
  invocations : list (list value)
}.

Definition fresh : Circuit :=
  {| state := CLOSED; samples := []; inFlight := 0%nat; cached := None;
     emitted := []; invocations := [] |}.

Definition set_state (st : State) (c : Circuit) : Circuit :=
  {| state := st; samples := samples c; inFlight := inFlight c;
     cached := cached c; emitted := emitted c; invocations := invocations c |}.

Definition emit (ev : string) (c : Circuit) : Circuit :=
  {| state := state c; samples := samples c; inFlight := inFlight c;
     cached := cached c; emitted := emitted c ++ [ev];
     invocations := invocations c |}.

Definition set_inFlight (n : nat) (c : Circuit) : Circuit :=
  {| state := state c; samples := samples c; inFlight := n;
     cached := cached c; emitted := emitted c; invocations := invocations c |}.

(** *** 4.1 Rolling statistics window *)

Definition record (now : Z) (o : Outcome) (c : Circuit) : Circuit :=
  {| state := state c; samples := samples c ++ [(now, o)];
     inFlight := inFlight c; cached := cached c; emitted := emitted c;
     invocations := invocations c |}.

Definition reset_statistics (c : Circuit) : Circuit :=
  {| state := state c; samples := []; inFlight := inFlight c;
     cached := cached c; emitted := emitted c; invocations := invocations c |}.

Definition in_window (cfg : Config) (now : Z) (s : Z * Outcome) : bool :=
  bool_decide (now - s.1 < windowMs cfg).

(** Calls that reached the operation make the volume; rejections and cache
    hits never reached it. *)
Definition reached_operation (o : Outcome) : bool :=
  match o with Success | Failure _ | Timeout => true | _ => false end.

(** timeouts always count, a failure counts when the classifier says so *)
Definition counted_failure (o : Outcome) : bool :=
  match o with Failure counted => counted | Timeout => true | _ => false end.

Definition tally (p : Outcome → bool) (cfg : Config) (now : Z) (c : Circuit) : Z :=
  Z.of_nat (length (filter (λ s, in_window cfg now s && p s.2) (samples c))).

Definition volume := tally reached_operation.
Definition failures := tally counted_failure.

(** Modelled from the spec: section 4.2, the test of the missing engine for
    CLOSED to OPEN: the volume is there and the error rate, in percent, is
    at or above the threshold. *)
Definition unhealthy (cfg : Config) (now : Z) (c : Circuit) : bool :=
  bool_decide (minimumVolume cfg ≤ volume cfg now c) &&
  bool_decide (0 < volume cfg now c) &&
  bool_decide (errorThreshold cfg * volume cfg now c ≤ 100 * failures cfg now c).

(** *** 4.4 Result cache *)

Definition cache_get (cfg : Config) (now : Z) (c : Circuit) : option value :=
  if cacheEnabled cfg then
    match cached c with
    | Some (v, recordedAt) =>
        if bool_decide (cacheTTL cfg = 0) || bool_decide (now - recordedAt ≤ cacheTTL cfg)
        then Some v else None
    | None => None
    end
  else None.

Definition cache_put (cfg : Config) (now : Z) (v : value) (c : Circuit) : Circuit :=
  if cacheEnabled cfg then
    {| state := state c; samples := samples c; inFlight := inFlight c;
       cached := Some (v, now); emitted := emitted c;
       invocations := invocations c |}
  else c.

(** *** 4.2 State machine: re-evaluation after a recorded outcome *)

(** Modelled from the spec: section 4.2, the transitions of the missing
    engine taken after an outcome is recorded; OPEN to HALF_OPEN is taken
    by the admission check below. *)

Definition reevaluate (cfg : Config) (now : Z) (o : Outcome) (c : Circuit) : Circuit :=
  match state c with
  | CLOSED =>
      if unhealthy cfg now c then emit "open" (set_state (OPEN now) c) else c
  | OPEN _ => c
  | HALF_OPEN false => c
  | HALF_OPEN true =>
      match o with
      | Success | Failure false =>
          emit "close" (set_state CLOSED (reset_statistics c))
      | Failure true | Timeout => emit "open" (set_state (OPEN now) c)
      | _ => c
      end
  end.

(** *** 4.3 Execution gate, steps 1 to 5: admission *)

Inductive Admission : Type :=
  | Served (v : value)
  | Rejected (e : value)
  | Accepted.

Definition at_capacity (cfg : Config) (c : Circuit) : bool :=
  match capacity cfg with
  | Some n => bool_decide (n ≤ inFlight c)%nat
  | None => false
  end.

(** Modelled from the spec: section 4.3 step 4 and the admission of step 5
    in the missing engine; [trial] tells that the call takes the half-open
    trial slot. *)
Definition consult_capacity (cfg : Config) (now : Z) (trial : bool) (c : Circuit)
  : Admission * Circuit :=
  if at_capacity cfg c then
    (Rejected CapacityExceededError,
     reevaluate cfg now RejectedCapacity
       (record now RejectedCapacity (emit "semaphoreLocked" c)))
  else
    (Accepted,
     emit "fire"
       (set_inFlight (S (inFlight c))
          (if trial then set_state (HALF_OPEN true) c else c))).

Definition reject_open (cfg : Config) (now : Z) (c : Circuit) : Admission * Circuit :=
  (Rejected CircuitOpenError,
   reevaluate cfg now RejectedOpen (record now RejectedOpen (emit "reject" c))).

(** Modelled from the spec: section 4.3 step 3 with the time-driven
    transition of section 4.2, in the missing engine: an open circuit
    rejects until the reset timeout has elapsed, then one call takes the
    trial slot. *)
Definition consult_state (cfg : Config) (now : Z) (c : Circuit) : Admission * Circuit :=
  match state c with
  | CLOSED => consult_capacity cfg now false c
  | OPEN openedAt =>
      if bool_decide (now - openedAt < resetTimeoutMs cfg) then reject_open cfg now c
      else consult_capacity cfg now true
             (emit "halfOpen" (set_state (HALF_OPEN false) c))
  | HALF_OPEN true => reject_open cfg now c
  | HALF_OPEN false => consult_capacity cfg now true c
  end.

(** Modelled from the spec: section 4.3 steps 1 to 5 of the missing engine:
    cache, then state machine, then capacity. *)
Definition admission (cfg : Config) (now : Z) (c : Circuit) : Admission * Circuit :=
  match cache_get cfg now c with
  | Some v =>
      (Served v,
       reevaluate cfg now CacheHit (record now CacheHit (emit "cacheHit" c)))
  | None =>
      consult_state cfg now (if cacheEnabled cfg then emit "cacheMiss" c else c)
  end.

(** *** 4.3 Execution gate, steps 5 and 6: the accepted call settles *)

Inductive GateResult : Type :=
  | Value (v : value)
  | Failed (e : value)
  | Pending.

Definition invoked (args : list value) (c : Circuit) : Circuit :=
  {| state := state c; samples := samples c; inFlight := inFlight c;
     cached := cached c; emitted := emitted c;
     invocations := invocations c ++ [args] |}.

Definition release (c : Circuit) : Circuit := set_inFlight (pred (inFlight c)) c.

(** the timeout wins the race against an operation of this latency *)
Definition timeout_first (cfg : Config) (latencyMs : Z) : option Z :=
  match timeoutMs cfg with
  | Some t => if bool_decide (t < latencyMs) then Some t else None
  | None => None
  end.

Definition timed_out (cfg : Config) (at_ : Z) (settles : bool) (c : Circuit)
  : GateResult * Circuit :=
  let c := emit "timeout" (record at_ Timeout c) in
  (Failed TimeoutError,
   reevaluate cfg at_ Timeout (if settles then release c else c)).

(** Modelled from the spec: section 4.3 steps 5 and 6 of the missing engine:
    the race of the operation against the timeout, the recorded outcome,
    the re-evaluation. *)
Definition settle (cfg : Config) (now : Z) (b : Behaviour) (c : Circuit)
  : GateResult * Circuit :=
  match b with
  | Never =>
      match timeoutMs cfg with
      | Some t => timed_out cfg (now + t) false c
      | None => (Pending, c)
      end
  | Settles latencyMs completion =>
      match timeout_first cfg latencyMs with
      | Some t => timed_out cfg (now + t) true c
      | None =>
          let at_ := now + latencyMs in
          match completion with
          | Returned v =>
              (Value v,
               reevaluate cfg at_ Success
                 (release (emit "success"
                    (cache_put cfg at_ v (record at_ Success c)))))
          | Raised e =>
              let o := Failure (counts cfg e) in
              (Failed e,
               reevaluate cfg at_ o (release (emit "failure" (record at_ o c))))
          end
      end
  end.

(** Modelled from the spec: section 4.3, [execute(operation, args)] of the
    missing engine without the fallback: what the gate itself answers. The
    operation is run only on admission. *)
Definition gate (cfg : Config) (operation : list value → Behaviour)
    (args : list value) (now : Z) (c : Circuit) : GateResult * Circuit :=
  match admission cfg now c with
  | (Served v, c') => (Value v, c')
  | (Rejected e, c') => (Failed e, c')
  | (Accepted, c') => settle cfg now (operation args) (invoked args c')
  end.

(** *** 4.5 Fallback router *)

Inductive FireResult : Type :=
  | Done (c : Completion)
  | Hung.

Definition of_behaviour (b : Behaviour) : FireResult :=
  match b with Settles _ c => Done c | Never => Hung end.

(** Modelled from the spec: section 4.5, the fallback router of the missing
    engine. The handler is called with the original call arguments and the
    triggering error: the arguments of the call, as positional parameters,
    then the error (the README has the [input] of the fallback of a
    one-argument method be that argument itself). What the handler returns
    or raises is the outcome. Without a handler the gate's error is the
    outcome. *)
Definition route (handler : option (list value → Behaviour))
    (args : list value) (r : GateResult) (c : Circuit) : FireResult * Circuit :=
  match r with
  | Value v => (Done (Returned v), c)
  | Pending => (Hung, c)
  | Failed e =>
      match handler with
      | Some h => (of_behaviour (h (args ++ [e])), emit "fallback" c)
      | None => (Done (Raised e), c)
      end
  end.

Definition execute (cfg : Config) (operation : list value → Behaviour)
    (handler : option (list value → Behaviour))
    (args : list value) (now : Z) (c : Circuit) : FireResult * Circuit :=
  let '(r, c') := gate cfg operation args now c in
  route handler args r c'.

End Engine.

(* ===================================================================== *)
(** ** The breaker object and the [CircuitBreaker] decorator              *)
(* ===================================================================== *)

(** [async (...args) => eventHandler.call(target, ...args)]: the closure
    handed to [breaker.on], with the two variables it captures. *)
Record Listener : Type := {
  eventHandler : value;
  boundTo : Target
}.

(** [async (args, error) =>
      await target[fallbackMethod].call(target, { input: args, err: error })]:
    the closure handed to [breaker.fallback]; the method is looked up when
    the closure runs. *)
Record FallbackFn : Type := {
  fallbackTarget : Target;
  fallbackMethod : string
}.

(** The object made by [new OpossumCircuitBreaker(originalMethod, opt)]:
    what the decorator gives it, and the engine state it owns. *)
Record Breaker : Type := {
  action : value;
  breaker_opt : gmap string value;
  listeners : list (string * Listener);
  fallbackFunction : option FallbackFn;
  circuit : Engine.Circuit
}.

Definition new_breaker (action : value) (opt : gmap string value) : Breaker :=
  {| action := action; breaker_opt := opt; listeners := [];
     fallbackFunction := None; circuit := Engine.fresh |}.

(** Modelled from the spec: [breaker.on(eventName, listener)] of the missing
    engine (section 4.5: several listeners per event, kept in registration
    order): the listener goes after those already there. *)
Definition breaker_on (ev : string) (l : Listener) (b : Breaker) : Breaker :=
  {| action := action b; breaker_opt := breaker_opt b;
     listeners := listeners b ++ [(ev, l)];
     fallbackFunction := fallbackFunction b; circuit := circuit b |}.

(** Modelled from the spec: [breaker.fallback(fn)] of the missing engine
    (section 4.5: one fallback handler per circuit). *)
Definition breaker_fallback (fn : FallbackFn) (b : Breaker) : Breaker :=
  {| action := action b; breaker_opt := breaker_opt b;
     listeners := listeners b;
     fallbackFunction := Some fn; circuit := circuit b |}.

Definition set_circuit (c : Engine.Circuit) (b : Breaker) : Breaker :=
  {| action := action b; breaker_opt := breaker_opt b;
     listeners := listeners b;
     fallbackFunction := fallbackFunction b; circuit := c |}.

(** Modelled from the spec: the listeners an event emitted by the missing
    engine reaches, in the order of [on] (section 4.5). *)
Definition listeners_on (b : Breaker) (ev : string) : list Listener :=
  (filter (λ p, p.1 = ev) (listeners b)).*2.

(** The module state: the registry, and the breakers created so far. A
    breaker is known by its position in the heap. *)
Record World : Type := {
  events : Events;
  heap : list Breaker
}.

(** The function stored in [descriptor.value]:
    [function (...args) { return breaker.fire(...args); }]. *)
Record Guarded : Type := { breaker_ref : nat }.

(** [opt.group], as [classEvents.get] receives it. *)
Definition opt_group (opt : gmap string value) : option string :=
  match opt !! "group" with
  | Some (VString g) => Some g
  | _ => None
  end.

(** The [for (const [eventName, methodName] of circuitEvents)] loop, with its
    two variables [registeredEvents] and [breaker]. *)
Fixpoint attach_listeners (target : Target) (fallbackMethod : option string)
    (circuitEvents : list (string * string)) (registeredEvents : gset string)
    (breaker : Breaker) : Breaker :=
  match circuitEvents with
  | [] => breaker
  | (eventName, methodName) :: rest =>
      if bool_decide (eventName = "fallback") && truthy_name fallbackMethod then
        attach_listeners target fallbackMethod rest registeredEvents breaker
      else
        let eventHandler := target_get target methodName in
        if is_function eventHandler
           && negb (bool_decide (methodName ∈ registeredEvents)) then
          attach_listeners target fallbackMethod rest
            ({[methodName]} ∪ registeredEvents)
            (breaker_on eventName
               {| eventHandler := eventHandler; boundTo := target |} breaker)
        else
          attach_listeners target fallbackMethod rest registeredEvents breaker
  end.

(** The [if (fallbackMethod && typeof target[fallbackMethod] === "function")]
    after the loop. *)
Definition attach_fallback (target : Target) (fallbackMethod : option string)
    (breaker : Breaker) : Breaker :=
  match fallbackMethod with
  | Some m =>
      if truthy_name fallbackMethod && is_function (target_get target m) then
        breaker_fallback {| fallbackTarget := target; fallbackMethod := m |} breaker
      else breaker
  | None => breaker
  end.

(** The breaker one decoration builds from the registry. *)
Definition build_breaker (params : option CircuitBreakerInput) (target : Target)
    (descriptor : value) (events : Events) : Breaker :=
  let params := default default_params params in
  let opt := make_opt params in
  let originalMethod := descriptor in
  let breaker := new_breaker originalMethod opt in
  let className := constructor_name target in
  let circuitEvents :=
    match opt_group opt with
    | Some g => circuit_events events className g
    | None => []
    end in
  let fallbackMethod := JsMap.get "fallback" circuitEvents in
  attach_fallback target fallbackMethod
    (attach_listeners target fallbackMethod circuitEvents ∅ breaker).

(** [CircuitBreaker(params)(target, propertyKey, descriptor)]: a new breaker
    goes on the heap, and [descriptor.value] becomes the wrapper around
    it. *)
Definition CircuitBreaker (params : option CircuitBreakerInput) (target : Target)
    (propertyKey : string) (descriptor : value) (w : World) : World * Guarded :=
  ({| events := events w;
      heap := heap w ++ [build_breaker params target descriptor (events w)] |},
   {| breaker_ref := length (heap w) |}).

(* ===================================================================== *)
(** ** Calling a guarded method                                           *)
(* ===================================================================== *)

Section UserCode.

(** What each user function of the program does when called. *)
Variable run : nat → list value → Engine.Behaviour.

(** A call of a value: calling what is not a function raises. *)
Definition call (f : value) (args : list value) : Engine.Behaviour :=
  match f with
  | VFunction id => run id args
  | _ => Engine.Settles 0 (Engine.Raised (VError "TypeError"))
  end.

(** A positional parameter of a call: [undefined] when the call passes
    fewer values. *)
Definition parameter (i : nat) (passed : list value) : value :=
  default VUndefined (passed !! i).

(** The fallback closure, called with the values [passed]: [args] is its
    first parameter, [error] its second, and the method gets the one object
    [{ input: args, err: error }]. *)
Definition call_fallback (fn : FallbackFn) (passed : list value)
  : Engine.Behaviour :=
  let args := parameter 0 passed in
  let error := parameter 1 passed in
  call (target_get (fallbackTarget fn) (fallbackMethod fn))
       [VObject [("input", args); ("err", error)]].

Definition truthy (v : value) : bool :=
  match v with
  | VUndefined | VNull | VBool false => false
  | VNumber n => negb (bool_decide (n = 0))
  | VString s => negb (bool_decide (s = ""))
  | _ => true
  end.

Definition number_or (opt : gmap string value) (key : string) (d : Z) : Z :=
  match opt !! key with Some (VNumber n) => n | _ => d end.

(** Modelled from the spec: how the engine reads its configuration out of
    the options object (section 6 and the option list of the README): a
    [timeout] that is not a number is a disabled timeout, an [errorFilter]
    that answers truthy keeps a failure out of the error rate. *)
Definition config_of (opt : gmap string value) : Engine.Config :=
  {| Engine.timeoutMs :=
       match opt !! "timeout" with Some (VNumber n) => Some n | _ => None end;
     Engine.errorThreshold := number_or opt "errorThresholdPercentage" 50;
     Engine.resetTimeoutMs := number_or opt "resetTimeout" 30000;
     Engine.minimumVolume := number_or opt "volumeThreshold" 0;
     Engine.windowMs := number_or opt "rollingCountTimeout" 10000;
     Engine.capacity :=
       match opt !! "capacity" with
       | Some (VNumber n) => Some (Z.to_nat n)
       | _ => None
       end;
     Engine.cacheEnabled :=
       match opt !! "cache" with Some (VBool true) => true | _ => false end;
     Engine.cacheTTL := number_or opt "cacheTTL" 0;
     Engine.counts := λ e,
       match opt !! "errorFilter" with
       | Some (VFunction id) =>
           match run id [e] with
           | Engine.Settles _ (Engine.Returned v) => negb (truthy v)
           | _ => true
           end
       | _ => true
       end |}.

(** What the gate of a breaker answers, before any fallback. *)
Definition breaker_gate (b : Breaker) (args : list value) (now : Z)
  : Engine.GateResult * Engine.Circuit :=
  Engine.gate (config_of (breaker_opt b)) (call (action b)) args now (circuit b).

(** Modelled from the spec: [breaker.fire(...args)] of the missing engine is
    [execute] of section 4.3 on the action, with the fallback function as
    the handler of section 4.5. *)
Definition fire (b : Breaker) (args : list value) (now : Z)
  : Engine.FireResult * Breaker :=
  let '(r, c) :=
    Engine.execute (config_of (breaker_opt b)) (call (action b))
      (call_fallback <$> fallbackFunction b) args now (circuit b) in
  (r, set_circuit c b).

(** A call of the wrapper stored in [descriptor.value]. *)
Definition invoke (w : World) (g : Guarded) (args : list value) (now : Z)
  : option (Engine.FireResult * World) :=
  match heap w !! breaker_ref g with
  | Some b =>
      let '(r, b') := fire b args now in
      Some (r, {| events := events w; heap := <[breaker_ref g := b']> (heap w) |})
  | None => None
  end.

End UserCode.

(* ===================================================================== *)
(** ** Auxiliary readings of the loop and of call sequences               *)
(* ===================================================================== *)

(** The registry entries for which the loop calls [breaker.on], in order. *)
Fixpoint selected (target : Target) (fallbackMethod : option string)
    (circuitEvents : list (string * string)) (registeredEvents : gset string)
  : list (string * string) :=
  match circuitEvents with
  | [] => []
  | (eventName, methodName) :: rest =>
      if bool_decide (eventName = "fallback") && truthy_name fallbackMethod then
        selected target fallbackMethod rest registeredEvents
      else if is_function (target_get target methodName)
              && negb (bool_decide (methodName ∈ registeredEvents)) then
        (eventName, methodName)
          :: selected target fallbackMethod rest ({[methodName]} ∪ registeredEvents)
      else selected target fallbackMethod rest registeredEvents
  end.

Definition listener_of (target : Target) (entry : string * string)
  : string * Listener :=
  (entry.1, {| eventHandler := target_get target entry.2; boundTo := target |}).

(** What one registration does to the entries of its own circuit. *)
Definition file_entry (m : list (string * string)) (r : Registration)
  : list (string * string) :=
  JsMap.set (eventName (reg_input r)) (reg_key r) m.

(** A registration is filed under the identity of this class name and
    group. *)
Definition same_circuit (className group : string) (r : Registration) : Prop :=
  reg_class r = className ∧ reg_group r = group.

Global Instance same_circuit_dec className group r :
  Decision (same_circuit className group r).
Proof. unfold same_circuit. apply _. Defined.

(** The calls of a sequence go through the gate one after the other, each
    at its own time. *)
Fixpoint gate_all (cfg : Engine.Config) (operation : list value → Engine.Behaviour)
    (calls : list (Z * list value)) (c : Engine.Circuit)
  : list Engine.GateResult * Engine.Circuit :=
  match calls with
  | [] => ([], c)
  | (now, args) :: rest =>
      let '(r, c') := Engine.gate cfg operation args now c in
      let '(rs, c'') := gate_all cfg operation rest c' in
      (r :: rs, c'')
  end.


(** The entries the decoration reads from the registry. *)
Definition entries_of (params : option CircuitBreakerInput) (target : Target)
    (E : Events) : list (string * string) :=
  circuit_events E (constructor_name target)
                 (params_group (default default_params params)).

(* ===================================================================== *)
(** ** A small service class, for the concrete cases                      *)
(* ===================================================================== *)

Module Scenario.

(** A class with one guarded method and four handler methods. *)
Definition Service : Target :=
  {| constructor_name := "Service";
     properties :=
       list_to_map
         [("getComments", VFunction 0); ("first", VFunction 1);
          ("second", VFunction 2); ("recover", VFunction 3);
          ("getPosts", VFunction 4)] |}.

(** [@onEvent({ eventName: ev })] on the method [key] of [Service]. *)
Definition handler (ev key : string) : Registration :=
  {| reg_input := {| eventName := ev; oe_circuitGroup := None |};
     reg_target := Service; reg_key := key |}.

(** [@CircuitBreaker({ circuitGroup: "api" })] *)
Definition api : option CircuitBreakerInput :=
  Some {| options := None; circuitGroup := Some "api" |}.

(** The guarded methods raise after 1 ms; [recover] answers the object it
    is given. *)
Definition program (f : nat) (args : list value) : Engine.Behaviour :=
  match f with
  | 3%nat => Engine.Settles 0 (Engine.Returned (VArray args))
  | _ => Engine.Settles 1 (Engine.Raised (VError "ECONNREFUSED"))
  end.

Definition start : World := {| events := ∅; heap := [] |}.

(** A configuration and an open circuit, opened at time 100. *)
Definition config : Engine.Config :=
  {| Engine.timeoutMs := Some 1000; Engine.errorThreshold := 20;
     Engine.resetTimeoutMs := 5000; Engine.minimumVolume := 5;
     Engine.windowMs := 10000; Engine.capacity := None;
     Engine.cacheEnabled := false; Engine.cacheTTL := 0;
     Engine.counts := λ _, true |}.

Definition opened : Engine.Circuit := Engine.set_state (Engine.OPEN 100) Engine.fresh.

End Scenario.

(* ===================================================================== *)
(** ** Readings of the registry and of a class being decorated            *)
(* ===================================================================== *)

(** The test at the head of the loop body:
    [eventName === "fallback" && fallbackMethod]. *)
Definition skipped (fallbackMethod : option string) (ev : string) : bool :=
  bool_decide (ev = "fallback") && truthy_name fallbackMethod.

(** The names of a list, each kept at the place of its first occurrence. *)
Definition first_occurrences (names : list string) : list string :=
  reverse (remove_dups (reverse names)).

(** A registration filed under this class name and group for this event
    name. *)
Definition registers (className group ev : string) (r : Registration) : Prop :=
  same_circuit className group r ∧ eventName (reg_input r) = ev.

Global Instance registers_dec className group ev r :
  Decision (registers className group ev r).
Proof. unfold registers. apply _. Defined.

(** The keys [opt] is given after the spread. *)
Definition written_keys : list string := defaulted_options.*1 ++ ["group"].

(** The decorators of a class body run one after the other on the module
    state: [onEvent] writes the registry, [CircuitBreaker] reads it and
    creates a breaker. *)
Inductive Decoration : Type :=
  | OnEvent (input : OnEventInput) (target : Target) (propertyKey : string)
  | Guard (params : option CircuitBreakerInput) (target : Target)
          (propertyKey : string) (descriptor : value).

Definition decorate (w : World) (d : Decoration) : World :=
  match d with
  | OnEvent input target propertyKey =>
      {| events := onEvent input target propertyKey (events w);
         heap := heap w |}
  | Guard params target propertyKey descriptor =>
      (CircuitBreaker params target propertyKey descriptor w).1
  end.

Definition decorate_all (w : World) (ds : list Decoration) : World :=
  foldl decorate w ds.

(** The [onEvent] applications among the decorations, in order. *)
Definition registrations (ds : list Decoration) : list Registration :=
  ds ≫= λ d,
    match d with
    | OnEvent input target propertyKey =>
        [{| reg_input := input; reg_target := target; reg_key := propertyKey |}]
    | Guard _ _ _ _ => []
    end.

(* ===================================================================== *)
(** ** Readings of the gate while no call is let through                  *)
(* ===================================================================== *)






(* ===================================================================== *)
(** ** Further concrete classes and circuits                              *)
(* ===================================================================== *)

Module Cases.

(** Two more classes named [Service], as another module may define them:
    [Twin] has a method [first] of its own, [Heir] has the method [first]
    of [Scenario.Service] (function 1), as a subclass inherits it. Neither
    registers anything. *)
Definition Twin : Target :=
  {| constructor_name := "Service";
     properties := list_to_map [("first", VFunction 9); ("load", VFunction 8)] |}.

Definition Heir : Target :=
  {| constructor_name := "Service";
     properties := list_to_map [("first", VFunction 1); ("load", VFunction 8)] |}.






End Cases.

(* ===================================================================== *)
(** ** Properties of the ordered map                                      *)
(* ===================================================================== *)

Section JsMapFacts.
Context {V : Type}.
Implicit Types (m : list (string * V)) (k : string) (v : V).

Lemma jsmap_get_set_eq k v m : JsMap.get k (JsMap.set k v m) = Some v.
Proof.
  induction m as [|[k' v'] m IH]; simpl.
  - by rewrite decide_True.
  - destruct (decide (k = k')) as [->|Hne]; simpl.
    + by rewrite decide_True.
    + by rewrite decide_False.
Qed.

Lemma jsmap_get_set_ne k k' v m :
  k ≠ k' → JsMap.get k' (JsMap.set k v m) = JsMap.get k' m.
Proof.
  intros Hne. induction m as [|[k0 v0] m IH]; simpl.
  - by rewrite decide_False.
  - destruct (decide (k = k0)) as [->|Hk]; simpl.
    + by rewrite !decide_False.
    + destruct (decide (k' = k0)); done.
Qed.

Lemma jsmap_keys_set k v m :
  JsMap.keys (JsMap.set k v m) =
  if decide (k ∈ JsMap.keys m) then JsMap.keys m else JsMap.keys m ++ [k].
Proof.
  unfold JsMap.keys. induction m as [|[k' v'] m IH]; [done |].
  cbn [JsMap.set]. destruct (decide (k = k')) as [->|Hne].
  - rewrite decide_True; [done | set_solver].
  - rewrite fmap_cons, IH. cbn [fst fmap list_fmap].
    destruct (decide (k ∈ m.*1)) as [Hin|Hnin].
    + rewrite decide_True; [done | set_solver].
    + rewrite decide_False; [done | set_solver].
Qed.

Lemma jsmap_NoDup_keys_set k v m :
  NoDup (JsMap.keys m) → NoDup (JsMap.keys (JsMap.set k v m)).
Proof.
  intros Hnd. rewrite jsmap_keys_set. case_decide; [done |].
  apply NoDup_app. split_and!; [done | set_solver | apply NoDup_singleton].
Qed.

Lemma jsmap_get_Some_elem k v m : JsMap.get k m = Some v → (k, v) ∈ m.
Proof.
  induction m as [|[k' v'] m IH]; simpl; [done |].
  destruct (decide (k = k')) as [->|Hne].
  - intros [= ->]. set_solver.
  - intros H. apply IH in H. set_solver.
Qed.

Lemma jsmap_elem_get_Some k v m :
  NoDup (JsMap.keys m) → (k, v) ∈ m → JsMap.get k m = Some v.
Proof.
  unfold JsMap.keys. induction m as [|[k' v'] m IH]; simpl.
  - intros _ H. by apply elem_of_nil in H.
  - intros Hnd Hin. apply NoDup_cons in Hnd as [Hk Hnd].
    apply elem_of_cons in Hin as [[= <- <-]|Hin].
    + by rewrite decide_True.
    + rewrite decide_False; [by apply IH |].
      intros ->. apply Hk. apply list_elem_of_fmap. by exists (k', v).
Qed.

End JsMapFacts.

(* ===================================================================== *)
(** ** Properties of the registry                                         *)
(* ===================================================================== *)

Lemma circuit_events_register (E : Events) r className group :
  circuit_events (register E r) className group =
  if decide (same_circuit className group r)
  then file_entry (circuit_events E className group) r
  else circuit_events E className group.
Proof.
  unfold register, onEvent, circuit_events, same_circuit, file_entry,
    reg_class, reg_group.
  destruct (decide (constructor_name (reg_target r) = className)) as [<-|Hc].
  - rewrite lookup_insert_eq. simpl.
    destruct (decide (onEvent_group (reg_input r) = group)) as [<-|Hg].
    + rewrite lookup_insert_eq. simpl. by rewrite decide_True.
    + rewrite lookup_insert_ne by done. rewrite decide_False; [done | tauto].
  - rewrite lookup_insert_ne by done. rewrite decide_False; [done | tauto].
Qed.

Lemma circuit_events_foldl (regs : list Registration) (E : Events) className group :
  circuit_events (foldl register E regs) className group =
  foldl file_entry (circuit_events E className group)
        (filter (same_circuit className group) regs).
Proof.
  revert E. induction regs as [|r regs IH]; intros E; [done |].
  simpl. rewrite IH, circuit_events_register, filter_cons.
  destruct (decide (same_circuit className group r)); done.
Qed.

Lemma circuit_events_empty className group :
  circuit_events (∅ : Events) className group = [].
Proof. unfold circuit_events. by rewrite lookup_empty. Qed.

(** The entries of a circuit are those of its own registrations alone. *)
Lemma circuit_events_registry (regs : list Registration) className group :
  circuit_events (registry_of regs) className group =
  foldl file_entry [] (filter (same_circuit className group) regs).
Proof.
  unfold registry_of. by rewrite circuit_events_foldl, circuit_events_empty.
Qed.

Lemma filter_same_circuit_idemp className group (regs : list Registration) :
  filter (same_circuit className group)
         (filter (same_circuit className group) regs) =
  filter (same_circuit className group) regs.
Proof.
  induction regs as [|r regs IH]; [done |].
  rewrite filter_cons. destruct (decide (same_circuit className group r)).
  - rewrite filter_cons, decide_True by done. by rewrite IH.
  - done.
Qed.

Lemma circuit_events_registry_filter (regs : list Registration) className group :
  circuit_events (registry_of (filter (same_circuit className group) regs))
                 className group =
  circuit_events (registry_of regs) className group.
Proof.
  by rewrite !circuit_events_registry, filter_same_circuit_idemp.
Qed.

Lemma NoDup_keys_foldl_file (regs : list Registration) (m : list (string * string)) :
  NoDup (JsMap.keys m) → NoDup (JsMap.keys (foldl file_entry m regs)).
Proof.
  revert m. induction regs as [|r regs IH]; intros m Hm; [done |].
  simpl. apply IH. by apply jsmap_NoDup_keys_set.
Qed.

(** The event names of a circuit's entries are pairwise distinct. *)
Lemma NoDup_keys_circuit_events (regs : list Registration) className group :
  NoDup (JsMap.keys (circuit_events (registry_of regs) className group)).
Proof.
  rewrite circuit_events_registry. apply NoDup_keys_foldl_file. constructor.
Qed.

Lemma elem_of_jsmap_set (k : string) (v : string) m (e : string * string) :
  e ∈ JsMap.set k v m → e = (k, v) ∨ e ∈ m.
Proof.
  induction m as [|[k' v'] m IH]; simpl.
  - intros H. apply list_elem_of_singleton in H. by left.
  - destruct (decide (k = k')) as [->|Hne].
    + intros H. apply elem_of_cons in H as [->|H]; [by left |].
      right. by apply elem_of_cons; right.
    + intros H. apply elem_of_cons in H as [->|H].
      * right. by apply elem_of_cons; left.
      * destruct (IH H) as [->|Hin]; [by left |].
        right. by apply elem_of_cons; right.
Qed.

Lemma elem_of_foldl_file (regs : list Registration) (m : list (string * string)) e :
  e ∈ foldl file_entry m regs →
  e ∈ m ∨ ∃ r, r ∈ regs ∧ e = (eventName (reg_input r), reg_key r).
Proof.
  revert m. induction regs as [|r regs IH]; intros m; simpl; [by left |].
  intros H. destruct (IH _ H) as [Hin|(r' & Hr' & ->)].
  - apply elem_of_jsmap_set in Hin as [->|Hin]; [| by left].
    right. exists r. split; [by apply elem_of_cons; left | done].
  - right. exists r'. split; [by apply elem_of_cons; right | done].
Qed.

(** Every entry of a circuit was filed by a registration of that circuit. *)
Lemma circuit_events_origin (regs : list Registration) className group e :
  e ∈ circuit_events (registry_of regs) className group →
  ∃ r, r ∈ regs ∧ same_circuit className group r ∧
       e = (eventName (reg_input r), reg_key r).
Proof.
  rewrite circuit_events_registry. intros H.
  apply elem_of_foldl_file in H as [H|(r & Hr & ->)].
  - by apply elem_of_nil in H.
  - apply list_elem_of_filter in Hr as [Hs Hr]. by exists r.
Qed.

(* ===================================================================== *)
(** ** Properties of the decoration                                       *)
(* ===================================================================== *)

Lemma attach_listeners_spec target fb entries registered b :
  attach_listeners target fb entries registered b =
  {| action := action b; breaker_opt := breaker_opt b;
     listeners := listeners b ++ (listener_of target <$> selected target fb entries registered);
     fallbackFunction := fallbackFunction b; circuit := circuit b |}.
Proof.
  revert registered b.
  induction entries as [|[ev m] entries IH]; intros registered b; simpl.
  - rewrite app_nil_r. by destruct b.
  - destruct (bool_decide (ev = "fallback") && truthy_name fb); [apply IH |].
    destruct (is_function (target_get target m)
              && negb (bool_decide (m ∈ registered))); [| apply IH].
    rewrite IH. simpl. by rewrite <- app_assoc.
Qed.

Lemma attach_fallback_fields target fb b :
  action (attach_fallback target fb b) = action b ∧
  breaker_opt (attach_fallback target fb b) = breaker_opt b ∧
  listeners (attach_fallback target fb b) = listeners b ∧
  circuit (attach_fallback target fb b) = circuit b.
Proof.
  unfold attach_fallback. destruct fb as [m|]; [| done].
  by destruct (truthy_name (Some m) && is_function (target_get target m)).
Qed.

Lemma opt_group_make_opt params :
  opt_group (make_opt params) = Some (params_group params).
Proof. unfold opt_group, make_opt. by rewrite lookup_insert_eq. Qed.

Lemma build_breaker_unfold params target descriptor (E : Events) :
  build_breaker params target descriptor E =
  let entries := entries_of params target E in
  let fb := JsMap.get "fallback" entries in
  attach_fallback target fb
    (attach_listeners target fb entries ∅
       (new_breaker descriptor (make_opt (default default_params params)))).
Proof. unfold build_breaker, entries_of. by rewrite opt_group_make_opt. Qed.

Lemma build_breaker_opt params target descriptor (E : Events) :
  breaker_opt (build_breaker params target descriptor E) =
  make_opt (default default_params params).
Proof.
  rewrite build_breaker_unfold. simpl.
  destruct (attach_fallback_fields target
              (JsMap.get "fallback" (entries_of params target E))
              (attach_listeners target
                 (JsMap.get "fallback" (entries_of params target E))
                 (entries_of params target E) ∅
                 (new_breaker descriptor (make_opt (default default_params params)))))
    as (_ & -> & _).
  by rewrite attach_listeners_spec.
Qed.

Lemma build_breaker_action params target descriptor (E : Events) :
  action (build_breaker params target descriptor E) = descriptor.
Proof.
  rewrite build_breaker_unfold. simpl.
  match goal with |- action (attach_fallback ?t ?f ?b) = _ =>
    destruct (attach_fallback_fields t f b) as (-> & _) end.
  by rewrite attach_listeners_spec.
Qed.

Lemma build_breaker_circuit params target descriptor (E : Events) :
  circuit (build_breaker params target descriptor E) = Engine.fresh.
Proof.
  rewrite build_breaker_unfold. simpl.
  match goal with |- circuit (attach_fallback ?t ?f ?b) = _ =>
    destruct (attach_fallback_fields t f b) as (_ & _ & _ & ->) end.
  by rewrite attach_listeners_spec.
Qed.

Lemma build_breaker_listeners params target descriptor (E : Events) :
  listeners (build_breaker params target descriptor E) =
  listener_of target <$>
    selected target (JsMap.get "fallback" (entries_of params target E))
             (entries_of params target E) ∅.
Proof.
  rewrite build_breaker_unfold. simpl.
  match goal with |- listeners (attach_fallback ?t ?f ?b) = _ =>
    destruct (attach_fallback_fields t f b) as (_ & _ & -> & _) end.
  by rewrite attach_listeners_spec.
Qed.

Lemma make_opt_defaulted params k d :
  (k, d) ∈ defaulted_options →
  make_opt params !! k = Some (coalesce (Js.get (options params) k) (VNumber d)).
Proof.
  unfold defaulted_options. intros Hin.
  repeat (apply elem_of_cons in Hin as [[= -> ->]|Hin]);
    [| | | | by apply elem_of_nil in Hin];
    unfold make_opt;
    repeat (first [ rewrite lookup_insert_eq; reflexivity
                  | rewrite lookup_insert_ne by done ]).
Qed.

(** C3. Each of the four options [timeout], [errorThresholdPercentage],
    [resetTimeout], [volumeThreshold] of the breaker built by the decorator
    is its documented default (1000, 20, 5000, 5) when the configuration
    omits it, and is the supplied value when the configuration gives
    one. *)
Theorem C3_defaults_fill_omitted_options
    (params : option CircuitBreakerInput) (target : Target) (descriptor : value)
    (E : Events) (k : string) (d : Z) :
  (k, d) ∈ defaulted_options →
  let supplied := Js.get (options (default default_params params)) k in
  let opt := breaker_opt (build_breaker params target descriptor E) in
  defaulted_options =
    [("timeout", 1000); ("errorThresholdPercentage", 20);
     ("resetTimeout", 5000); ("volumeThreshold", 5)] ∧
  (nullish supplied = true → opt !! k = Some (VNumber d)) ∧
  (nullish supplied = false → opt !! k = Some supplied).
Proof.
  intros Hin supplied opt. subst opt.
  rewrite build_breaker_opt, (make_opt_defaulted _ k d Hin).
  fold supplied. unfold coalesce.
  split; [reflexivity |].
  split; intros ->; reflexivity.
Qed.

(** C9. The [group] of the options handed to the breaker is the decorator's
    [circuitGroup], or ["default"] when that is absent, whatever [group] the
    options object of the configuration carries. *)
Theorem C9_group_is_circuitGroup
    (params : option CircuitBreakerInput) (target : Target) (descriptor : value)
    (E : Events) :
  breaker_opt (build_breaker params target descriptor E) !! "group" =
  Some (VString (default "default"
                   (circuitGroup (default default_params params)))).
Proof.
  rewrite build_breaker_opt. unfold make_opt, params_group.
  by rewrite lookup_insert_eq.
Qed.

(** *** What the loop selects *)

Lemma selected_sublist target fb entries registered :
  selected target fb entries registered `sublist_of` entries.
Proof.
  revert registered.
  induction entries as [|[ev m] entries IH]; intros registered; simpl.
  - constructor.
  - destruct (bool_decide (ev = "fallback") && truthy_name fb).
    { apply sublist_cons, IH. }
    destruct (is_function (target_get target m)
              && negb (bool_decide (m ∈ registered))).
    + apply sublist_skip, IH.
    + apply sublist_cons, IH.
Qed.

Lemma selected_elem target fb entries registered e :
  e ∈ selected target fb entries registered → e ∈ entries.
Proof. intros H. eapply elem_of_sublist; [exact H | apply selected_sublist]. Qed.

Lemma selected_NoDup_keys target fb entries registered :
  NoDup (JsMap.keys entries) →
  NoDup (JsMap.keys (selected target fb entries registered)).
Proof.
  unfold JsMap.keys. intros Hnd. eapply sublist_NoDup; [exact Hnd |].
  apply fmap_sublist, selected_sublist.
Qed.

(** A method name is selected at most once, and never when it is already
    in [registeredEvents]. *)
Lemma selected_methods target fb entries registered :
  NoDup (selected target fb entries registered).*2 ∧
  ∀ e, e ∈ selected target fb entries registered → e.2 ∉ registered.
Proof.
  revert registered.
  induction entries as [|[ev m] entries IH]; intros registered; simpl.
  - split; [constructor | intros e H; by apply elem_of_nil in H].
  - destruct (bool_decide (ev = "fallback") && truthy_name fb); [apply IH |].
    destruct (is_function (target_get target m)) eqn:Hf; simpl; [| apply IH].
    destruct (bool_decide (m ∈ registered)) eqn:Hm; simpl; [apply IH |].
    apply bool_decide_eq_false in Hm.
    destruct (IH ({[m]} ∪ registered)) as [Hnd Hout].
    split.
    + apply NoDup_cons. split; [| done].
      intros Hin. apply list_elem_of_fmap in Hin as (e & -> & He).
      apply Hout in He. set_solver.
    + intros e He. apply elem_of_cons in He as [->|He]; [done |].
      apply Hout in He. set_solver.
Qed.

Lemma filter_key_fmap_listener target ev (l : list (string * string)) :
  filter (λ p : string * Listener, p.1 = ev) (listener_of target <$> l) =
  listener_of target <$> filter (λ p : string * string, p.1 = ev) l.
Proof.
  induction l as [|[k m] l IH]; [done |].
  rewrite fmap_cons, !filter_cons. simpl.
  destruct (decide (k = ev)); by rewrite IH.
Qed.

Lemma filter_key_absent (ev : string) (l : list (string * string)) :
  ev ∉ l.*1 → filter (λ p : string * string, p.1 = ev) l = [].
Proof.
  induction l as [|[k m] l IH]; [done |].
  rewrite fmap_cons, filter_cons. simpl. intros Hnin.
  apply not_elem_of_cons in Hnin as [Hne Hnin].
  rewrite decide_False by done. by apply IH.
Qed.

Lemma filter_key_length (ev : string) (l : list (string * string)) :
  NoDup l.*1 → (length (filter (λ p : string * string, p.1 = ev) l) ≤ 1)%nat.
Proof.
  induction l as [|[k m] l IH]; [simpl; lia |].
  rewrite fmap_cons, filter_cons. simpl. intros Hnd.
  apply NoDup_cons in Hnd as [Hk Hnd].
  destruct (decide (k = ev)) as [->|Hne]; [| by apply IH].
  rewrite filter_key_absent by done. simpl. lia.
Qed.

Lemma listeners_on_build params target descriptor (E : Events) ev :
  listeners_on (build_breaker params target descriptor E) ev =
  (listener_of target <$>
     filter (λ p : string * string, p.1 = ev)
       (selected target (JsMap.get "fallback" (entries_of params target E))
                 (entries_of params target E) ∅)).*2.
Proof.
  unfold listeners_on.
  by rewrite build_breaker_listeners, filter_key_fmap_listener.
Qed.

Lemma registry_of_snoc (regs : list Registration) r :
  registry_of (regs ++ [r]) = register (registry_of regs) r.
Proof. unfold registry_of. by rewrite foldl_app. Qed.

(** C7, as the code has it. The breaker a decoration builds depends on the
    registrations filed under its own identity only: the class name of its
    target, by which alone classes are told apart, and its circuit group,
    ["default"] standing for an omitted group on either side. Registrations
    of any other class name or group change nothing of it, and each listener it carries is the method named by a registration
    of that identity, attached while the breaker is built. *)
Theorem C7_listeners_follow_circuit_identity
    (regs : list Registration) (params : option CircuitBreakerInput)
    (target : Target) (descriptor : value) :
  let className := constructor_name target in
  let group := default "default" (circuitGroup (default default_params params)) in
  build_breaker params target descriptor (registry_of regs) =
  build_breaker params target descriptor
    (registry_of (filter (same_circuit className group) regs)) ∧
  ∀ ev l,
    (ev, l) ∈ listeners (build_breaker params target descriptor (registry_of regs)) →
    ∃ r, r ∈ regs ∧
         constructor_name (reg_target r) = className ∧
         default "default" (oe_circuitGroup (reg_input r)) = group ∧
         eventName (reg_input r) = ev ∧
         eventHandler l = target_get target (reg_key r) ∧
         boundTo l = target.
Proof.
  intros className group. split.
  - rewrite !build_breaker_unfold. unfold entries_of.
    fold className. change (params_group (default default_params params)) with group.
    by rewrite circuit_events_registry_filter.
  - intros ev l Hin. rewrite build_breaker_listeners in Hin.
    apply list_elem_of_fmap in Hin as ([ev' m] & Heq & Hsel).
    apply selected_elem in Hsel. unfold entries_of in Hsel.
    apply circuit_events_origin in Hsel as (r & Hr & [Hc Hg] & Hentry).
    injection Heq as -> ->. injection Hentry as -> ->.
    by exists r.
Qed.

(** C2, as the code has it. A circuit keeps one method name per event name:
    a registration replaces whatever was registered before it under the
    same event name, and the breaker built from the registry carries at
    most one listener for any event name. *)
Theorem C2_latest_registration_replaces_earlier
    (regs : list Registration) (r : Registration)
    (params : option CircuitBreakerInput) (target : Target) (descriptor : value)
    (ev : string) :
  JsMap.get (eventName (reg_input r))
    (circuit_events (registry_of (regs ++ [r])) (reg_class r) (reg_group r))
  = Some (reg_key r) ∧
  (length (listeners_on
             (build_breaker params target descriptor (registry_of regs)) ev)
   ≤ 1)%nat.
Proof.
  split.
  - rewrite registry_of_snoc, circuit_events_register.
    rewrite decide_True by done. apply jsmap_get_set_eq.
  - rewrite listeners_on_build, !length_fmap.
    apply filter_key_length. apply selected_NoDup_keys.
    apply NoDup_keys_circuit_events.
Qed.

(** *** Deduplication by method name *)

Lemma selected_first target fb m e1 xs entries registered :
  filter (λ p : string * string, p.2 = m) entries = (e1, m) :: xs →
  m ∉ registered →
  is_function (target_get target m) = true →
  bool_decide (e1 = "fallback") && truthy_name fb = false →
  (e1, m) ∈ selected target fb entries registered.
Proof.
  intros Hfilter Hm Hfun Hskip. revert registered Hm Hfilter.
  induction entries as [|[ev m'] entries IH]; intros registered Hm Hfilter.
  - done.
  - rewrite filter_cons in Hfilter. simpl in Hfilter.
    destruct (decide (m' = m)) as [->|Hne].
    + inversion Hfilter; subst. simpl.
      rewrite Hskip, Hfun. rewrite bool_decide_eq_false_2 by done. simpl.
      apply elem_of_cons. by left.
    + simpl.
      destruct (bool_decide (ev = "fallback") && truthy_name fb);
        [by apply IH |].
      destruct (is_function (target_get target m')
                && negb (bool_decide (m' ∈ registered))).
      * apply elem_of_cons. right. apply IH; [set_solver | done].
      * by apply IH.
Qed.

Lemma NoDup_snd_unique (l : list (string * string)) a b m :
  NoDup l.*2 → (a, m) ∈ l → (b, m) ∈ l → a = b.
Proof.
  induction l as [|[k v] l IH]; simpl.
  - intros _ H. by apply elem_of_nil in H.
  - intros Hnd Ha Hb. apply NoDup_cons in Hnd as [Hv Hnd].
    apply elem_of_cons in Ha as [Ha|Ha];
      apply elem_of_cons in Hb as [Hb|Hb].
    + congruence.
    + exfalso. apply Hv. apply list_elem_of_fmap. exists (b, m).
      split; [simpl; congruence | done].
    + exfalso. apply Hv. apply list_elem_of_fmap. exists (a, m).
      split; [simpl; congruence | done].
    + by apply IH.
Qed.

Lemma filter_key_unique (l : list (string * string)) k v :
  NoDup l.*1 → (k, v) ∈ l →
  filter (λ p : string * string, p.1 = k) l = [(k, v)].
Proof.
  induction l as [|[k' v'] l IH]; simpl.
  - intros _ H. by apply elem_of_nil in H.
  - intros Hnd Hin. apply NoDup_cons in Hnd as [Hk Hnd].
    rewrite filter_cons. simpl.
    destruct (decide (k' = k)) as [->|Hne].
    + rewrite filter_key_absent by done.
      apply elem_of_cons in Hin as [[= ->]|Hin]; [done |].
      exfalso. apply Hk. apply list_elem_of_fmap. by exists (k, v).
    + apply elem_of_cons in Hin as [[= -> ->]|Hin]; [done |]. by apply IH.
Qed.

Lemma filter_key_none (l : list (string * string)) k :
  (∀ v, (k, v) ∉ l) → filter (λ p : string * string, p.1 = k) l = [].
Proof.
  intros Hnone. apply filter_key_absent. intros Hin.
  apply list_elem_of_fmap in Hin as ([k' v] & -> & Hin). by apply (Hnone v).
Qed.

(** C10, as the code has it. When the entries of a circuit name one method
    under exactly two event names, and the one met first by the loop is not
    ["fallback"], the method is the listener of that first event name and
    the second event name gets no listener. *)
Theorem C10_second_event_name_of_a_method_gets_no_listener
    (regs : list Registration) (params : option CircuitBreakerInput)
    (target : Target) (descriptor : value) (e1 e2 m : string) (h : nat) :
  let b := build_breaker params target descriptor (registry_of regs) in
  filter (λ p : string * string, p.2 = m)
         (entries_of params target (registry_of regs)) = [(e1, m); (e2, m)] →
  e1 ≠ "fallback" →
  target_get target m = VFunction h →
  eventHandler <$> listeners_on b e1 = [VFunction h] ∧
  listeners_on b e2 = [] ∧
  e1 ≠ e2.
Proof.
  intros b Hfilter Hfb Hfun. subst b.
  set (entries := entries_of params target (registry_of regs)) in *.
  set (fb := JsMap.get "fallback" entries).
  set (sel := selected target fb entries ∅).
  assert (NoDup entries.*1) as Hkeys
    by apply (NoDup_keys_circuit_events regs).
  assert (NoDup sel.*1) as Hselkeys by by apply selected_NoDup_keys.
  assert ((e1, m) ∈ entries ∧ (e2, m) ∈ entries) as [Hin1 Hin2].
  { assert (∀ e, e ∈ [(e1, m); (e2, m)] → e ∈ entries) as Hsub.
    { intros e He. rewrite <- Hfilter in He.
      by apply list_elem_of_filter in He as [_ He]. }
    split; apply Hsub; set_solver. }
  assert (e1 ≠ e2) as Hne.
  { assert (NoDup ([(e1, m); (e2, m)] : list (string * string)).*1) as Hnd.
    { eapply sublist_NoDup; [exact Hkeys |].
      apply fmap_sublist. rewrite <- Hfilter. apply sublist_filter. }
    simpl in Hnd. apply NoDup_cons in Hnd as [Hnd _]. set_solver. }
  assert ((e1, m) ∈ sel) as Hsel1.
  { eapply selected_first; [exact Hfilter | set_solver | by rewrite Hfun |].
    by rewrite bool_decide_eq_false_2. }
  split_and!; [| | done].
  - rewrite listeners_on_build. fold entries fb sel.
    rewrite (filter_key_unique sel e1 m) by done.
    simpl. by rewrite Hfun.
  - rewrite listeners_on_build. fold entries fb sel.
    rewrite filter_key_none; [done |].
    intros v Hv.
    assert ((e2, v) ∈ entries) as Hentry by by eapply selected_elem.
    assert (v = m) as ->.
    { apply jsmap_elem_get_Some in Hentry; [| done].
      apply jsmap_elem_get_Some in Hin2; [| done]. congruence. }
    apply Hne.
    eapply (NoDup_snd_unique sel); [| exact Hsel1 | exact Hv].
    apply selected_methods.
Qed.

(** *** Concrete cases of the registry and of the loop *)

(** C2, the claim as stated fails: two handlers registered for ["open"] on
    one circuit, and the breaker carries the second alone. *)
Lemma C2_counterexample_earlier_listener_is_lost :
  let regs := [Scenario.handler "open" "first"; Scenario.handler "open" "second"] in
  let b := build_breaker None Scenario.Service (VFunction 0) (registry_of regs) in
  "open" ∈ EventType ∧
  eventHandler <$> listeners_on b "open" = [VFunction 2] ∧
  eventHandler <$> listeners_on b "open" ≠ [VFunction 1; VFunction 2].
Proof.
  split_and!; [unfold EventType; set_solver | vm_compute; reflexivity |].
  vm_compute. discriminate.
Qed.

(** C10, the claim as stated fails: one method registered under
    ["fallback"] and then under ["open"] is the listener of ["open"], the
    event name met second, and is the fallback as well. *)
Lemma C10_counterexample_fallback_met_first :
  let regs := [Scenario.handler "fallback" "recover";
               Scenario.handler "open" "recover"] in
  let b := build_breaker None Scenario.Service (VFunction 0) (registry_of regs) in
  entries_of None Scenario.Service (registry_of regs) =
    [("fallback", "recover"); ("open", "recover")] ∧
  listeners_on b "fallback" = [] ∧
  eventHandler <$> listeners_on b "open" = [VFunction 3] ∧
  fallbackMethod <$> fallbackFunction b = Some "recover".
Proof. repeat split; vm_compute; reflexivity. Qed.

Lemma C10_witness :
  let regs := [Scenario.handler "open" "first"; Scenario.handler "close" "first"] in
  let b := build_breaker None Scenario.Service (VFunction 0) (registry_of regs) in
  eventHandler <$> listeners_on b "open" = [VFunction 1] ∧
  listeners_on b "close" = [] ∧
  "open" ≠ "close".
Proof.
  intros regs b.
  apply (C10_second_event_name_of_a_method_gets_no_listener
           regs None Scenario.Service (VFunction 0) "open" "close" "first" 1).
  - vm_compute. reflexivity.
  - discriminate.
  - vm_compute. reflexivity.
Defined.

Lemma C3_witness :
  let given := Some {| options := Some {["timeout" := VBool false]};
                       circuitGroup := None |} in
  let opt := breaker_opt (build_breaker given Scenario.Service (VFunction 0) ∅) in
  opt !! "timeout" = Some (VBool false) ∧
  opt !! "resetTimeout" = Some (VNumber 5000).
Proof.
  intros given opt. split.
  - apply (C3_defaults_fill_omitted_options given Scenario.Service (VFunction 0) ∅
             "timeout" 1000); [vm_compute; set_solver | vm_compute; reflexivity].
  - apply (C3_defaults_fill_omitted_options given Scenario.Service (VFunction 0) ∅
             "resetTimeout" 5000); [vm_compute; set_solver | vm_compute; reflexivity].
Defined.

(* ===================================================================== *)
(** ** Properties of guarded calls                                        *)
(* ===================================================================== *)

Section GuardedCalls.

Variable run : nat → list value → Engine.Behaviour.

Lemma fire_fst_snd (b : Breaker) args now :
  fire run b args now = ((fire run b args now).1, (fire run b args now).2).
Proof. by destruct (fire run b args now). Qed.

Lemma invoke_found (w : World) g b args now :
  heap w !! breaker_ref g = Some b →
  invoke run w g args now =
  Some ((fire run b args now).1,
        {| events := events w;
           heap := <[breaker_ref g := (fire run b args now).2]> (heap w) |}).
Proof.
  intros Hb. unfold invoke. rewrite Hb. by destruct (fire run b args now).
Qed.

(** C5. The function a decoration stores in place of the method passes the
    arguments of every call, as they are, to [fire] of the breaker built by
    that decoration around the original method, and answers what [fire]
    answers. *)
Theorem C5_wrapper_forwards_arguments_to_fire
    (params : option CircuitBreakerInput) (target : Target) (propertyKey : string)
    (descriptor : value) (w : World) (args : list value) (now : Z) :
  let b := build_breaker params target descriptor (events w) in
  let w' := (CircuitBreaker params target propertyKey descriptor w).1 in
  let wrapped := (CircuitBreaker params target propertyKey descriptor w).2 in
  heap w' !! breaker_ref wrapped = Some b ∧
  action b = descriptor ∧
  invoke run w' wrapped args now =
  Some ((fire run b args now).1,
        {| events := events w; heap := heap w ++ [(fire run b args now).2] |}).
Proof.
  intros b w' wrapped.
  assert (heap w' !! breaker_ref wrapped = Some b) as Hb.
  { subst w' wrapped. simpl. by rewrite lookup_app_r, Nat.sub_diag. }
  split_and!; [done | apply build_breaker_action |].
  rewrite (invoke_found _ _ _ _ _ Hb). subst w' wrapped. simpl.
  do 3 f_equal.
  rewrite insert_app_r_alt, Nat.sub_diag by done. done.
Qed.

End GuardedCalls.


(* ===================================================================== *)
(** ** Properties of the fallback                                         *)
(* ===================================================================== *)

Lemma build_breaker_fallback params target descriptor (E : Events) :
  fallbackFunction (build_breaker params target descriptor E) =
  match JsMap.get "fallback" (entries_of params target E) with
  | Some m =>
      if negb (bool_decide (m = "")) && is_function (target_get target m)
      then Some {| fallbackTarget := target; fallbackMethod := m |}
      else None
  | None => None
  end.
Proof.
  rewrite build_breaker_unfold. simpl. unfold attach_fallback.
  destruct (JsMap.get "fallback" (entries_of params target E)) as [m|].
  - simpl.
    destruct (negb (bool_decide (m = "")) && is_function (target_get target m));
      simpl; by rewrite ?attach_listeners_spec.
  - by rewrite attach_listeners_spec.
Qed.

Lemma selected_skips_fallback target fb entries registered v :
  truthy_name fb = true →
  ("fallback", v) ∉ selected target fb entries registered.
Proof.
  intros Hfb. revert registered.
  induction entries as [|[ev m] entries IH]; intros registered; simpl.
  - apply not_elem_of_nil.
  - rewrite Hfb, andb_true_r.
    destruct (bool_decide (ev = "fallback")) eqn:Hev; [apply IH |].
    apply bool_decide_eq_false in Hev.
    destruct (is_function (target_get target m)
              && negb (bool_decide (m ∈ registered))); [| apply IH].
    apply not_elem_of_cons. split; [congruence | apply IH].
Qed.

Section Fallback.

Variable run : nat → list value → Engine.Behaviour.

Lemma fire_route (b : Breaker) args now r c' :
  breaker_gate run b args now = (r, c') →
  fire run b args now =
  ((Engine.route (call_fallback run <$> fallbackFunction b) args r c').1,
   set_circuit (Engine.route (call_fallback run <$> fallbackFunction b) args r c').2 b).
Proof.
  unfold breaker_gate, fire, Engine.execute. intros ->.
  by destruct (Engine.route _ args r c').
Qed.


(** What the fallback method is given, and that its answer is the outcome:
    when the gate fails a call, the method registered under [fallback] is
    called with [input] the first and [err] the second of the values
    "arguments of the call, then the error". *)
Lemma fire_fallback_positional
    (E : Events) (params : option CircuitBreakerInput) (target : Target)
    (descriptor : value) (c : Engine.Circuit) (args : list value) (now : Z)
    (e : value) (c' : Engine.Circuit) (m : string) (h : nat) :
  let b := set_circuit c (build_breaker params target descriptor E) in
  JsMap.get "fallback" (entries_of params target E) = Some m →
  m ≠ "" →
  target_get target m = VFunction h →
  breaker_gate run b args now = (Engine.Failed e, c') →
  fallbackFunction b = Some {| fallbackTarget := target; fallbackMethod := m |} ∧
  listeners_on b "fallback" = [] ∧
  fire run b args now =
    (Engine.of_behaviour
       (run h [VObject [("input", parameter 0 (args ++ [e]));
                        ("err", parameter 1 (args ++ [e]))]]),
     set_circuit (Engine.emit "fallback" c') b).
Proof.
  intros b Hsome Hm Hfun Hgate.
  assert (fallbackFunction b =
          Some {| fallbackTarget := target; fallbackMethod := m |}) as Hfb.
  { subst b. simpl. rewrite build_breaker_fallback, Hsome, Hfun.
    by rewrite bool_decide_eq_false_2. }
  split_and!; [done | |].
  - subst b. unfold listeners_on. simpl.
    rewrite build_breaker_listeners, filter_key_fmap_listener, Hsome.
    rewrite filter_key_none; [done |].
    intros v. apply selected_skips_fallback. simpl.
    by rewrite bool_decide_eq_false_2.
  - rewrite (fire_route _ _ _ _ _ Hgate), Hfb. simpl.
    unfold call_fallback. simpl. by rewrite Hfun.
Qed.

(** With one argument the method gets that argument and the error. *)
Lemma fire_fallback_one_argument
    (E : Events) (params : option CircuitBreakerInput) (target : Target)
    (descriptor : value) (c : Engine.Circuit) (a : value) (now : Z)
    (e : value) (c' : Engine.Circuit) (m : string) (h : nat) :
  let b := set_circuit c (build_breaker params target descriptor E) in
  JsMap.get "fallback" (entries_of params target E) = Some m →
  m ≠ "" →
  target_get target m = VFunction h →
  breaker_gate run b [a] now = (Engine.Failed e, c') →
  (fire run b [a] now).1 =
    Engine.of_behaviour (run h [VObject [("input", a); ("err", e)]]).
Proof.
  intros b Hsome Hm Hfun Hgate.
  destruct (fire_fallback_positional E params target descriptor c [a] now e c'
              m h Hsome Hm Hfun Hgate) as (_ & _ & Hfire).
  fold b in Hfire. by rewrite Hfire.
Qed.

End Fallback.

(* ===================================================================== *)
(** ** Properties of the open circuit                                     *)
(* ===================================================================== *)

Section OpenCircuit.

Variable cfg : Engine.Config.

















End OpenCircuit.

(* ===================================================================== *)
(** ** Concrete runs                                                      *)
(* ===================================================================== *)

(** With a volume threshold of 5 and an error threshold of 20 percent, four
    failures leave the circuit closed and the fifth opens it. *)
Example engine_opens_on_the_fifth_failure :
  let failing := Scenario.program 0 in
  let calls n := (λ i : nat, (Z.of_nat i * 10, [])) <$> seq 0 n in
  Engine.state (gate_all Scenario.config failing (calls 4%nat) Engine.fresh).2
    = Engine.CLOSED ∧
  Engine.state (gate_all Scenario.config failing (calls 5%nat) Engine.fresh).2
    = Engine.OPEN 41.
Proof. split; vm_compute; reflexivity. Qed.

(** The four ways in which the gate fails a call. *)
Example gate_fails_in_four_ways :
  let full := {| Engine.timeoutMs := Some 1000; Engine.errorThreshold := 20;
                 Engine.resetTimeoutMs := 5000; Engine.minimumVolume := 5;
                 Engine.windowMs := 10000; Engine.capacity := Some 0%nat;
                 Engine.cacheEnabled := false; Engine.cacheTTL := 0;
                 Engine.counts := λ _, true |} in
  (Engine.gate Scenario.config (Scenario.program 0) [] 200 Scenario.opened).1
    = Engine.Failed Engine.CircuitOpenError ∧
  (Engine.gate full (Scenario.program 0) [] 0 Engine.fresh).1
    = Engine.Failed Engine.CapacityExceededError ∧
  (Engine.gate Scenario.config (λ _, Engine.Never) [] 0 Engine.fresh).1
    = Engine.Failed Engine.TimeoutError ∧
  (Engine.gate Scenario.config (Scenario.program 0) [] 0 Engine.fresh).1
    = Engine.Failed (VError "ECONNREFUSED").
Proof. repeat split; vm_compute; reflexivity. Qed.




(** C4, the code misses what the claim says. A guarded method of two
    arguments fails with [ECONNREFUSED]; the fallback method is given the
    first argument as [input] and the second argument as [err], and the
    error reaches it nowhere. Called without arguments, it is given the
    error as [input] and [undefined] as [err]. With one argument it is
    given that argument and the error. In each case what it returns is the
    outcome of the call. *)
Theorem C4_fallback_of_a_two_argument_call_gets_no_error :
  let E := registry_of [Scenario.handler "fallback" "recover"] in
  let b := set_circuit Engine.fresh
             (build_breaker None Scenario.Service (VFunction 0) E) in
  let given input err :=
    Engine.Done (Engine.Returned
      (VArray [VObject [("input", input); ("err", err)]])) in
  (breaker_gate Scenario.program b [VNumber 7; VString "page 2"] 0).1 =
    Engine.Failed (VError "ECONNREFUSED") ∧
  (fire Scenario.program b [VNumber 7; VString "page 2"] 0).1 =
    given (VNumber 7) (VString "page 2") ∧
  (fire Scenario.program b [] 0).1 =
    given (VError "ECONNREFUSED") VUndefined ∧
  (fire Scenario.program b [VNumber 7] 0).1 =
    given (VNumber 7) (VError "ECONNREFUSED").
Proof. repeat split; vm_compute; reflexivity. Qed.

(** C7, the claim as stated fails: classes are told apart by their name
    alone. [Scenario.Service] registers its method [first] for ["open"];
    the breaker of a guarded method of [Cases.Twin], another class of the
    same name that registers nothing, gets a listener for ["open"], and the
    breaker of [Cases.Heir], which has the very function of
    [Scenario.Service] under that name, gets the registered handler
    itself. *)
Lemma C7_counterexample_classes_of_one_name_share_handlers :
  let E := registry_of [Scenario.handler "open" "first"] in
  Cases.Twin ≠ Scenario.Service ∧
  Cases.Heir ≠ Scenario.Service ∧
  target_get Scenario.Service "first" = VFunction 1 ∧
  eventHandler <$>
    listeners_on (build_breaker None Cases.Twin (VFunction 8) E) "open"
    = [VFunction 9] ∧
  eventHandler <$>
    listeners_on (build_breaker None Cases.Heir (VFunction 8) E) "open"
    = [VFunction 1].
Proof.
  split_and!; try (vm_compute; reflexivity).
  - intros H. apply (f_equal (λ t, target_get t "first")) in H.
    vm_compute in H. discriminate.
  - intros H. apply (f_equal (λ t, target_get t "load")) in H.
    vm_compute in H. discriminate.
Qed.

Lemma C7_witness :
  let other := {| reg_input := {| eventName := "open";
                                  oe_circuitGroup := Some "payments" |};
                  reg_target := Scenario.Service; reg_key := "second" |} in
  let regs := [Scenario.handler "open" "first"; other] in
  let b := build_breaker None Scenario.Service (VFunction 0) (registry_of regs) in
  eventHandler <$> listeners_on b "open" = [VFunction 1] ∧
  b = build_breaker None Scenario.Service (VFunction 0)
        (registry_of [Scenario.handler "open" "first"]).
Proof.
  intros other regs b. split; [vm_compute; reflexivity |].
  apply (C7_listeners_follow_circuit_identity regs None Scenario.Service
           (VFunction 0)).
Defined.

(* ===================================================================== *)
(** ** Further properties of the registry                                 *)
(* ===================================================================== *)

Lemma get_foldl_file (regs : list Registration) (m : list (string * string)) ev :
  JsMap.get ev (foldl file_entry m regs) =
  match last (filter (λ r, eventName (reg_input r) = ev) regs) with
  | Some r => Some (reg_key r)
  | None => JsMap.get ev m
  end.
Proof.
  revert m. induction regs as [|r regs IH]; intros m; [done |].
  simpl. rewrite IH, filter_cons. unfold file_entry.
  destruct (decide (eventName (reg_input r) = ev)) as [<-|Hne].
  - rewrite last_cons.
    destruct (last (filter _ regs)); [done | apply jsmap_get_set_eq].
  - destruct (last (filter _ regs)); [done |]. by apply jsmap_get_set_ne.
Qed.

(** X1. The method name the registry holds for an event name of a circuit
    is the one of the last registration made for that class name, group and
    event name; it holds none when there was no such registration. *)
Theorem X1_registry_lookup_is_last_registration
    (regs : list Registration) (className group ev : string) :
  JsMap.get ev (circuit_events (registry_of regs) className group) =
  reg_key <$> last (filter (registers className group ev) regs).
Proof.
  rewrite circuit_events_registry, get_foldl_file. simpl.
  assert (filter (λ r, eventName (reg_input r) = ev)
                 (filter (same_circuit className group) regs) =
          filter (registers className group ev) regs) as ->.
  { induction regs as [|r regs IH]; [done |].
    rewrite (filter_cons (registers className group ev)).
    rewrite (filter_cons (same_circuit className group)).
    destruct (decide (same_circuit className group r)) as [Hs|Hs].
    - rewrite filter_cons.
      destruct (decide (eventName (reg_input r) = ev)) as [He|He].
      + rewrite decide_True by done. by rewrite IH.
      + rewrite decide_False by (intros [_ ?]; done). done.
    - rewrite decide_False by (intros [? _]; done). done. }
  by destruct (last _).
Qed.

Lemma keys_foldl_file (regs : list Registration) (m : list (string * string)) :
  JsMap.keys (foldl file_entry m (regs)) =
  foldl (λ acc k, if decide (k ∈ acc) then acc else acc ++ [k])
        (JsMap.keys m) ((λ r, eventName (reg_input r)) <$> regs).
Proof.
  revert m. induction regs as [|r regs IH]; intros m; [done |].
  simpl. rewrite IH. unfold file_entry. by rewrite jsmap_keys_set.
Qed.

Lemma first_occurrences_snoc names k :
  first_occurrences (names ++ [k]) =
  if decide (k ∈ first_occurrences names) then first_occurrences names
  else first_occurrences names ++ [k].
Proof.
  unfold first_occurrences. rewrite reverse_snoc. simpl.
  destruct (decide_rel elem_of k (reverse names)) as [Hin|Hnin].
  - rewrite decide_True; [done |].
    by apply elem_of_reverse, elem_of_remove_dups.
  - rewrite decide_False.
    + by rewrite reverse_cons.
    + intros Hin. apply Hnin.
      by apply elem_of_remove_dups, elem_of_reverse.
Qed.

Lemma foldl_first_occurrences (names : list string) :
  foldl (λ acc k, if decide (k ∈ acc) then acc else acc ++ [k]) [] names =
  first_occurrences names.
Proof.
  induction names as [|k names IH] using rev_ind; [done |].
  by rewrite foldl_app, first_occurrences_snoc, IH.
Qed.

(** X2. The loop of the decorator meets the event names of a circuit in the
    order in which each was registered for the first time: registering an
    event name again, for another method, does not move it. *)
Theorem X2_iteration_order_is_first_registration_order
    (regs : list Registration) (className group : string) :
  JsMap.keys (circuit_events (registry_of regs) className group) =
  first_occurrences
    ((λ r, eventName (reg_input r)) <$> filter (same_circuit className group) regs).
Proof.
  rewrite circuit_events_registry, keys_foldl_file.
  apply foldl_first_occurrences.
Qed.

(* ===================================================================== *)
(** ** Further properties of the listener loop                            *)
(* ===================================================================== *)

Lemma selected_iff target fb entries registered ev m :
  (ev, m) ∈ selected target fb entries registered ↔
  ∃ before after,
    entries = before ++ (ev, m) :: after ∧
    skipped fb ev = false ∧
    is_function (target_get target m) = true ∧
    (m ∉ registered) ∧
    (∀ ev', (ev', m) ∈ before → skipped fb ev' = true).
Proof.
  unfold skipped. split.
  - revert registered.
    induction entries as [|[e0 m0] entries IH]; intros registered; simpl.
    { intros H. by apply elem_of_nil in H. }
    destruct (bool_decide (e0 = "fallback") && truthy_name fb) eqn:Hskip.
    { intros H. destruct (IH _ H) as (l1 & l2 & -> & Hs & Hf & Hr & Hb).
      exists ((e0, m0) :: l1), l2. split_and!; try done.
      intros ev' Hin. apply elem_of_cons in Hin as [[= -> _]|Hin]; [done |].
      by apply Hb. }
    destruct (is_function (target_get target m0)) eqn:Hfun; simpl.
    + destruct (bool_decide (m0 ∈ registered)) eqn:Hreg; simpl.
      * apply bool_decide_eq_true in Hreg.
        intros H. destruct (IH _ H) as (l1 & l2 & -> & Hs & Hf & Hr & Hb).
        exists ((e0, m0) :: l1), l2. split_and!; try done.
        intros ev' Hin. apply elem_of_cons in Hin as [[= -> ->]|Hin]; [done |].
        by apply Hb.
      * apply bool_decide_eq_false in Hreg.
        intros H. apply elem_of_cons in H as [[= -> ->]|H].
        { exists [], entries. split_and!; try done.
          intros ev' Hin. by apply elem_of_nil in Hin. }
        destruct (IH _ H) as (l1 & l2 & -> & Hs & Hf & Hr & Hb).
        exists ((e0, m0) :: l1), l2. split_and!; try done; [set_solver |].
        intros ev' Hin. apply elem_of_cons in Hin as [[= -> ->]|Hin].
        { set_solver. }
        by apply Hb.
    + intros H. destruct (IH _ H) as (l1 & l2 & -> & Hs & Hf & Hr & Hb).
      exists ((e0, m0) :: l1), l2. split_and!; try done.
      intros ev' Hin. apply elem_of_cons in Hin as [[= -> ->]|Hin]; [congruence |].
      by apply Hb.
  - intros (l1 & l2 & -> & Hs & Hf & Hr & Hb). revert registered Hr.
    induction l1 as [|[e0 m0] l1 IH]; intros registered Hr; simpl.
    + rewrite Hs, Hf. rewrite bool_decide_eq_false_2 by done. simpl.
      apply elem_of_cons. by left.
    + assert (∀ ev', (ev', m) ∈ l1 →
                bool_decide (ev' = "fallback") && truthy_name fb = true) as Hb'.
      { intros ev' Hin. apply Hb. apply elem_of_cons. by right. }
      destruct (bool_decide (e0 = "fallback") && truthy_name fb) eqn:Hskip.
      { by apply IH. }
      destruct (is_function (target_get target m0)
                && negb (bool_decide (m0 ∈ registered))); [| by apply IH].
      apply elem_of_cons. right. apply IH; [done |].
      assert (m0 ≠ m); [| set_solver].
      intros ->. specialize (Hb e0). rewrite Hskip in Hb.
      assert (false = true) by (apply Hb, elem_of_cons; by left). done.
Qed.

(** X3. An entry of the circuit's registry gets a listener exactly when the
    loop does not skip it as the fallback entry, the method it names is a
    function on the target, and no entry met before it names the same
    method, skipped fallback entries apart. The listener calls the target's
    method of that name, bound to the target. *)
Theorem X3_listener_attached_exactly_when
    (params : option CircuitBreakerInput) (target : Target) (descriptor : value)
    (E : Events) (ev : string) (l : Listener) :
  let entries := entries_of params target E in
  let fb := JsMap.get "fallback" entries in
  (ev, l) ∈ listeners (build_breaker params target descriptor E) ↔
  ∃ m before after,
    entries = before ++ (ev, m) :: after ∧
    l = {| eventHandler := target_get target m; boundTo := target |} ∧
    skipped fb ev = false ∧
    is_function (target_get target m) = true ∧
    ∀ ev', (ev', m) ∈ before → skipped fb ev' = true.
Proof.
  intros entries fb. rewrite build_breaker_listeners. fold entries fb.
  rewrite list_elem_of_fmap. split.
  - intros ([ev' m] & Heq & Hsel). injection Heq as -> ->.
    apply selected_iff in Hsel as (l1 & l2 & He & Hs & Hf & _ & Hb).
    by exists m, l1, l2.
  - intros (m & l1 & l2 & He & -> & Hs & Hf & Hb).
    exists (ev, m). split; [done |].
    apply selected_iff. exists l1, l2. split_and!; try done; set_solver.
Qed.

(** X4. The decorator never attaches what is not a function: every listener
    of the breaker it builds is a function, bound to the target. The event
    names that have a listener follow one another as in the registry of the
    circuit, and no method is attached under two event names. *)
Theorem X4_listeners_are_functions_in_registry_order
    (params : option CircuitBreakerInput) (target : Target) (descriptor : value)
    (E : Events) :
  let b := build_breaker params target descriptor E in
  (∀ ev l, (ev, l) ∈ listeners b →
     is_function (eventHandler l) = true ∧ boundTo l = target) ∧
  (listeners b).*1 `sublist_of` JsMap.keys (entries_of params target E) ∧
  ∃ methods : list string,
    NoDup methods ∧
    (listeners b).*2 =
      (λ m, {| eventHandler := target_get target m; boundTo := target |})
        <$> methods.
Proof.
  intros b. subst b. split_and!.
  - intros ev l Hin. rewrite build_breaker_listeners in Hin.
    apply list_elem_of_fmap in Hin as ([ev' m] & Heq & Hsel).
    injection Heq as -> ->.
    by apply selected_iff in Hsel as (_ & _ & _ & _ & Hf & _ & _).
  - rewrite build_breaker_listeners, <- list_fmap_compose.
    unfold JsMap.keys.
    assert ((fst ∘ listener_of target) = (fst : string * string → string)) as ->
      by done.
    apply fmap_sublist, selected_sublist.
  - exists (selected target (JsMap.get "fallback" (entries_of params target E))
                     (entries_of params target E) ∅).*2.
    split; [apply selected_methods |].
    rewrite build_breaker_listeners, <- !list_fmap_compose. done.
Qed.

(* ===================================================================== *)
(** ** Further properties of the fallback and of the options              *)
(* ===================================================================== *)

(** X5. The breaker gets a fallback function exactly when the registry of
    the circuit names, under [fallback], a method with a non-empty name that
    is a function on the target. A [fallback] entry with a non-empty name
    that is no function on the target has no effect: no fallback function,
    and no listener for the [fallback] event. *)
Theorem X5_fallback_installed_exactly_when
    (params : option CircuitBreakerInput) (target : Target) (descriptor : value)
    (E : Events) :
  let b := build_breaker params target descriptor E in
  let entries := entries_of params target E in
  (∀ fn, fallbackFunction b = Some fn ↔
     ∃ m, JsMap.get "fallback" entries = Some m ∧ m ≠ "" ∧
          is_function (target_get target m) = true ∧
          fn = {| fallbackTarget := target; fallbackMethod := m |}) ∧
  (∀ m, JsMap.get "fallback" entries = Some m → m ≠ "" →
        is_function (target_get target m) = false →
        fallbackFunction b = None ∧ listeners_on b "fallback" = []).
Proof.
  intros b entries. subst b. split.
  - intros fn. rewrite build_breaker_fallback. fold entries.
    destruct (JsMap.get "fallback" entries) as [m|].
    + destruct (decide (m = "")) as [->|Hne].
      * simpl. split; [done |]. intros (m' & [= <-] & Hm & _). done.
      * rewrite bool_decide_eq_false_2 by done. simpl.
        destruct (is_function (target_get target m)) eqn:Hf.
        -- split.
           ++ intros [= <-]. by exists m.
           ++ intros (m' & [= <-] & _ & _ & ->). done.
        -- split; [done |]. intros (m' & [= <-] & _ & Hf' & _). congruence.
    + split; [done |]. intros (m' & Hg & _). done.
  - intros m Hget Hne Hf. split.
    + rewrite build_breaker_fallback. fold entries. rewrite Hget, Hf.
      by rewrite andb_false_r.
    + unfold listeners_on.
      rewrite build_breaker_listeners, filter_key_fmap_listener.
      fold entries. rewrite Hget.
      rewrite filter_key_none; [done |].
      intros v. apply selected_skips_fallback. simpl.
      by rewrite bool_decide_eq_false_2.
Qed.

Lemma make_opt_other params k :
  k ∉ written_keys →
  make_opt params !! k = default ∅ (options params) !! k.
Proof.
  unfold written_keys, defaulted_options. simpl. intros Hk.
  unfold make_opt. rewrite !lookup_insert_ne; [done | set_solver..].
Qed.

(** X6. Every option the configuration carries beside the five keys the
    decorator writes itself reaches the breaker as it was given, absent
    ones staying absent; and the five written keys are always present in
    the options of the breaker, none of the four defaulted ones being
    [undefined] or [null]. *)
Theorem X6_other_options_pass_through
    (params : option CircuitBreakerInput) (target : Target) (descriptor : value)
    (E : Events) (k : string) :
  let opt := breaker_opt (build_breaker params target descriptor E) in
  (k ∉ written_keys →
     opt !! k = default ∅ (options (default default_params params)) !! k) ∧
  (k ∈ written_keys → is_Some (opt !! k)) ∧
  (k ∈ defaulted_options.*1 → ∃ v, opt !! k = Some v ∧ nullish v = false).
Proof.
  intros opt. subst opt. rewrite build_breaker_opt.
  set (p := default default_params params). split_and!.
  - apply make_opt_other.
  - unfold written_keys. intros Hin. apply elem_of_app in Hin as [Hin|Hin].
    + apply list_elem_of_fmap in Hin as ([k' d] & -> & Hin). simpl.
      rewrite (make_opt_defaulted p k' d Hin). by eexists.
    + apply list_elem_of_singleton in Hin as ->.
      unfold make_opt. rewrite lookup_insert_eq. by eexists.
  - intros Hin. apply list_elem_of_fmap in Hin as ([k' d] & -> & Hin). simpl.
    rewrite (make_opt_defaulted p k' d Hin). eexists. split; [done |].
    unfold coalesce. simpl.
    by destruct (nullish (Js.get (options p) k')) eqn:Hn.
Qed.

Lemma make_opt_normal o g :
  make_opt {| options := o; circuitGroup := g |} =
  make_opt {| options := Some (default ∅ o);
              circuitGroup := Some (default "default" g) |}.
Proof. unfold make_opt, params_group. by destruct o, g. Qed.

(** X7. An omitted [options] object counts as the empty object and an
    omitted [circuitGroup] as ["default"], and a decorator called without
    any argument behaves as one called with the empty object: in each case
    the same breaker is built. *)
Theorem X7_omitted_parameters_are_defaults
    (o : option (gmap string value)) (g : option string)
    (target : Target) (descriptor : value) (E : Events) :
  build_breaker (Some {| options := o; circuitGroup := g |}) target descriptor E =
  build_breaker (Some {| options := Some (default ∅ o);
                         circuitGroup := Some (default "default" g) |})
                target descriptor E ∧
  build_breaker None target descriptor E =
  build_breaker (Some {| options := None; circuitGroup := None |})
                target descriptor E.
Proof.
  split.
  - rewrite !build_breaker_unfold. unfold entries_of, params_group. simpl.
    rewrite (make_opt_normal o g). by destruct g.
  - rewrite !build_breaker_unfold. unfold entries_of, params_group. simpl.
    by rewrite (make_opt_normal None None).
Qed.

(** X8. The handler methods are the same for every guarded method of one
    class and circuit group: the listeners and the fallback function of the
    breaker depend on the target, the group and the registry, not on the
    options or on the decorated method. *)
Theorem X8_listeners_do_not_depend_on_options_or_method
    (p1 p2 : option CircuitBreakerInput) (target : Target) (d1 d2 : value)
    (E : Events) :
  params_group (default default_params p1) =
  params_group (default default_params p2) →
  listeners (build_breaker p1 target d1 E) =
  listeners (build_breaker p2 target d2 E) ∧
  fallbackFunction (build_breaker p1 target d1 E) =
  fallbackFunction (build_breaker p2 target d2 E).
Proof.
  intros Hg.
  rewrite !build_breaker_listeners, !build_breaker_fallback.
  unfold entries_of. by rewrite Hg.
Qed.

Lemma build_breaker_no_entries
    (params : option CircuitBreakerInput) (target : Target) (descriptor : value)
    (E : Events) :
  entries_of params target E = [] →
  build_breaker params target descriptor E =
  new_breaker descriptor (make_opt (default default_params params)).
Proof.
  intros Hnone. rewrite build_breaker_unfold. simpl. by rewrite Hnone.
Qed.

(* ===================================================================== *)
(** ** Properties of a class body being decorated                         *)
(* ===================================================================== *)

Lemma events_decorate_all (ds : list Decoration) (w : World) :
  events (decorate_all w ds) = foldl register (events w) (registrations ds).
Proof.
  revert w. induction ds as [|d ds IH]; intros w; [done |].
  unfold decorate_all, registrations in *. simpl. rewrite IH.
  destruct d; simpl; done.
Qed.

Lemma heap_decorate_all (ds : list Decoration) (w : World) :
  heap w `prefix_of` heap (decorate_all w ds).
Proof.
  revert w. induction ds as [|d ds IH]; intros w; [done |].
  unfold decorate_all in *. simpl.
  etrans; [| apply IH]. destruct d; simpl; [done |].
  by apply prefix_app_r.
Qed.

Lemma decorate_all_app (w : World) (ds1 ds2 : list Decoration) :
  decorate_all w (ds1 ++ ds2) = decorate_all (decorate_all w ds1) ds2.
Proof. unfold decorate_all. apply foldl_app. Qed.

(** X9. In a class body, the breaker of a guarded method is built from the
    registrations that ran before its decorator and stays as built: the
    decorators that run after it, registrations of its own circuit
    included, change neither this breaker nor its place. *)
Theorem X9_breaker_reflects_registrations_before_it
    (w : World) (before after : list Decoration)
    (params : option CircuitBreakerInput) (target : Target)
    (propertyKey : string) (descriptor : value) :
  heap (decorate_all w
          (before ++ Guard params target propertyKey descriptor :: after))
    !! length (heap (decorate_all w before)) =
  Some (build_breaker params target descriptor
          (foldl register (events w) (registrations before))).
Proof.
  rewrite decorate_all_app.
  change (decorate_all ?x (?d :: after))
    with (decorate_all (decorate x d) after).
  set (w1 := decorate_all w before).
  eapply prefix_lookup_Some; [| apply heap_decorate_all].
  simpl. rewrite lookup_app_r, Nat.sub_diag by done. simpl.
  subst w1. by rewrite events_decorate_all.
Qed.

Lemma no_registration_no_entries (regs : list Registration) className group :
  Forall (λ r, ¬ same_circuit className group r) regs →
  circuit_events (registry_of regs) className group = [].
Proof.
  intros Hall. rewrite circuit_events_registry.
  assert (filter (same_circuit className group) regs = []) as ->; [| done].
  induction Hall as [|r regs Hr Hall IH]; [done |].
  rewrite filter_cons. by rewrite decide_False.
Qed.

(** X10. A guarded method whose decorator runs before every registration of
    its circuit, as when the method is declared above its handlers, gets a
    bare breaker: no listener and no fallback function, whatever is
    registered after it. *)
Theorem X10_guard_before_its_handlers_gets_none
    (before after : list Decoration)
    (params : option CircuitBreakerInput) (target : Target)
    (propertyKey : string) (descriptor : value) :
  let start := {| events := ∅; heap := [] |} in
  Forall (λ r, ¬ same_circuit (constructor_name target)
                   (params_group (default default_params params)) r)
         (registrations before) →
  heap (decorate_all start
          (before ++ Guard params target propertyKey descriptor :: after))
    !! length (heap (decorate_all start before)) =
  Some (new_breaker descriptor (make_opt (default default_params params))).
Proof.
  intros start Hnone.
  rewrite decorate_all_app.
  change (decorate_all ?x (?d :: after))
    with (decorate_all (decorate x d) after).
  eapply prefix_lookup_Some; [| apply heap_decorate_all].
  simpl. rewrite lookup_app_r, Nat.sub_diag by done. simpl. f_equal.
  rewrite events_decorate_all. apply build_breaker_no_entries.
  unfold entries_of.
  by apply (no_registration_no_entries (registrations before)).
Qed.

(* ===================================================================== *)
(** ** How registrations compose                                          *)
(* ===================================================================== *)

Lemma jsmap_set_set (k v : string) (m : list (string * string)) :
  JsMap.set k v (JsMap.set k v m) = JsMap.set k v m.
Proof.
  induction m as [|[k' v'] m IH]; simpl.
  - by rewrite decide_True.
  - destruct (decide (k = k')) as [->|Hne]; simpl.
    + by rewrite decide_True.
    + rewrite decide_False by done. by rewrite IH.
Qed.

(** X11. Applying the same [onEvent] decorator twice in a row leaves the
    registry as applying it once does, and two registrations filed under
    different circuits, be it by class name or by group, give the same
    registry in either order. *)
Theorem X11_registration_idempotent_and_independent_across_circuits
    (E : Events) (r1 r2 : Registration) :
  register (register E r1) r1 = register E r1 ∧
  ((reg_class r1, reg_group r1) ≠ (reg_class r2, reg_group r2) →
   register (register E r1) r2 = register (register E r2) r1).
Proof.
  unfold register, onEvent, reg_class, reg_group.
  set (c1 := constructor_name (reg_target r1)).
  set (c2 := constructor_name (reg_target r2)).
  set (g1 := onEvent_group (reg_input r1)).
  set (g2 := onEvent_group (reg_input r2)).
  split.
  - rewrite lookup_insert_eq. simpl. rewrite lookup_insert_eq. simpl.
    by rewrite !insert_insert_eq, jsmap_set_set.
  - intros Hne. destruct (decide (c1 = c2)) as [Hc|Hc].
    + assert (g1 ≠ g2) as Hg by congruence.
      rewrite <- Hc. rewrite !lookup_insert_eq. simpl.
      rewrite !insert_insert_eq.
      rewrite (lookup_insert_ne _ g1 g2) by done.
      rewrite (lookup_insert_ne _ g2 g1) by done.
      f_equal. by apply insert_insert_ne.
    + rewrite (lookup_insert_ne _ c1 c2) by done.
      rewrite (lookup_insert_ne _ c2 c1) by done.
      by apply insert_insert_ne.
Qed.

(* ===================================================================== *)
(** ** Concrete cases of the further properties                           *)
(* ===================================================================== *)

Lemma X3_witness :
  let E := registry_of [Scenario.handler "open" "first"] in
  ("open", {| eventHandler := VFunction 1; boundTo := Scenario.Service |})
    ∈ listeners (build_breaker None Scenario.Service (VFunction 0) E).
Proof.
  intros E.
  apply (X3_listener_attached_exactly_when None Scenario.Service (VFunction 0) E).
  exists "first", [], []. split_and!; try (vm_compute; reflexivity).
  intros ev' Hin. by apply elem_of_nil in Hin.
Defined.

Lemma X4_witness :
  let E := registry_of [Scenario.handler "open" "first"] in
  let l := {| eventHandler := VFunction 1; boundTo := Scenario.Service |} in
  ("open", l) ∈ listeners (build_breaker None Scenario.Service (VFunction 0) E) ∧
  is_function (eventHandler l) = true ∧ boundTo l = Scenario.Service.
Proof.
  intros E l.
  assert (("open", l)
            ∈ listeners (build_breaker None Scenario.Service (VFunction 0) E))
    as Hin by (vm_compute; set_solver).
  split; [exact Hin |].
  destruct (X4_listeners_are_functions_in_registry_order
              None Scenario.Service (VFunction 0) E) as (Hfun & _).
  exact (Hfun "open" l Hin).
Defined.

Lemma X5_witness :
  let E := registry_of [Scenario.handler "fallback" "missing"] in
  let b := build_breaker None Scenario.Service (VFunction 0) E in
  fallbackFunction b = None ∧ listeners_on b "fallback" = [].
Proof.
  intros E b.
  destruct (X5_fallback_installed_exactly_when
              None Scenario.Service (VFunction 0) E) as (_ & Hdrop).
  apply (Hdrop "missing"); [vm_compute; reflexivity | discriminate |].
  vm_compute. reflexivity.
Defined.

Lemma X6_witness :
  let given := Some {| options := Some (<["capacity" := VNumber 3]>
                                          {["timeout" := VUndefined]});
                       circuitGroup := None |} in
  let opt := breaker_opt (build_breaker given Scenario.Service (VFunction 0) ∅) in
  opt !! "capacity" = Some (VNumber 3) ∧
  is_Some (opt !! "group") ∧
  ∃ v, opt !! "timeout" = Some v ∧ nullish v = false.
Proof.
  intros given opt. split_and!.
  - destruct (X6_other_options_pass_through given Scenario.Service
                (VFunction 0) ∅ "capacity") as (Hother & _ & _).
    subst opt. rewrite Hother; [vm_compute; reflexivity |].
    vm_compute. set_solver.
  - destruct (X6_other_options_pass_through given Scenario.Service
                (VFunction 0) ∅ "group") as (_ & Hwritten & _).
    apply Hwritten. vm_compute. set_solver.
  - destruct (X6_other_options_pass_through given Scenario.Service
                (VFunction 0) ∅ "timeout") as (_ & _ & Hdef).
    apply Hdef. vm_compute. set_solver.
Defined.

Lemma X8_witness :
  let E := registry_of [{| reg_input := {| eventName := "open";
                                          oe_circuitGroup := Some "api" |};
                          reg_target := Scenario.Service; reg_key := "first" |}] in
  let tuned := Some {| options := Some {["timeout" := VNumber 50]};
                       circuitGroup := Some "api" |} in
  listeners (build_breaker Scenario.api Scenario.Service (VFunction 0) E) =
  listeners (build_breaker tuned Scenario.Service (VFunction 4) E) ∧
  fallbackFunction (build_breaker Scenario.api Scenario.Service (VFunction 0) E) =
  fallbackFunction (build_breaker tuned Scenario.Service (VFunction 4) E).
Proof.
  intros E tuned.
  apply (X8_listeners_do_not_depend_on_options_or_method
           Scenario.api tuned Scenario.Service (VFunction 0) (VFunction 4) E).
  reflexivity.
Defined.

Lemma X10_witness :
  let body := [Guard None Scenario.Service "getComments" (VFunction 0);
               OnEvent {| eventName := "fallback"; oe_circuitGroup := None |}
                       Scenario.Service "recover";
               OnEvent {| eventName := "open"; oe_circuitGroup := None |}
                       Scenario.Service "first"] in
  heap (decorate_all Scenario.start body) !! 0%nat =
  Some (new_breaker (VFunction 0) (make_opt default_params)).
Proof.
  intros body.
  apply (X10_guard_before_its_handlers_gets_none []
           [OnEvent {| eventName := "fallback"; oe_circuitGroup := None |}
                    Scenario.Service "recover";
            OnEvent {| eventName := "open"; oe_circuitGroup := None |}
                    Scenario.Service "first"]
           None Scenario.Service "getComments" (VFunction 0)).
  constructor.
Defined.

Lemma X11_witness :
  let r1 := Scenario.handler "open" "first" in
  let r2 := {| reg_input := {| eventName := "open";
                               oe_circuitGroup := Some "payments" |};
               reg_target := Scenario.Service; reg_key := "second" |} in
  register (register ∅ r1) r2 = register (register ∅ r2) r1.
Proof.
  intros r1 r2.
  apply (X11_registration_idempotent_and_independent_across_circuits ∅ r1 r2).
  vm_compute. discriminate.
Defined.

Example first_occurrences_keeps_first_places :
  first_occurrences ["open"; "close"; "open"; "fire"; "close"] =
  ["open"; "close"; "fire"].
Proof. vm_compute. reflexivity. Qed.

(* ===================================================================== *)
(** ** Two guarded methods in a class body                                *)
(* ===================================================================== *)


Section TwoGuardedMethods.

Variable run : nat → list value → Engine.Behaviour.


End TwoGuardedMethods.

